(** * The puzzle-to-training-set pipeline of [fenpreprocessing.py]

    A shallow embedding of the four functions of [src/fenpreprocessing.py]
    ([fen_to_array], [puzzle_cleaning] / [single_move], [possible_moves],
    [make_converted_file]) and of the parts of the Python runtime, of
    python-chess and of pandas they call, followed by the properties the
    specification states about them. *)

From Stdlib Require Import ZArith Ascii String DecimalString Lia.
From stdpp Require Import base decidable option list strings.

Open Scope string_scope.

(** ** Python values and exceptions *)

(** The exceptions the pipeline can raise.  The comment after each one is
    the name the specification uses for it. *)
Inductive exn : Type :=
  | ValueError_board_string (len : nat)  (* InvalidBoardLength: the [raise] of [fen_to_array] *)
  | KeyError (key : ascii)               (* InvalidPieceSymbol: [piece_dict[...]] *)
  | IndexError                           (* a list, string or array index out of range *)
  | ValueError_fen                       (* MalformedFenError: [chess.Board(fen)] *)
  | InvalidMoveError                     (* a string that is no move identifier *)
  | IllegalMoveError                     (* IllegalMoveError: [push_uci] of an illegal move *)
  | KeyError_column (name : string)      (* [to_csv(columns=...)] naming an absent column *)
  | ValueError_concat                    (* pandas: No objects to concatenate *)
  | ValueError_setitem                   (* pandas: a frame assigned to one column *)
  | TypeError                            (* [len(v)] of a value that has no length *)
  | AttributeError.                      (* [v.split] of a value that is no [str] *)

Inductive result (A : Type) : Type :=
  | Ok (a : A)
  | Err (e : exn).
Arguments Ok {A} a.
Arguments Err {A} e.

#[global] Instance result_ret : MRet result := fun A a => Ok a.
#[global] Instance result_bind : MBind result := fun A B f m =>
  match m with
  | Ok a => f a
  | Err e => Err e
  end.

Definition is_Ok {A} (r : result A) : bool :=
  match r with
  | Ok _ => true
  | Err _ => false
  end.

(** A value of a cell of a frame read from a csv file: the text of the
    field, a [str], or a value that is no [str] (an [int], a [float] such
    as NaN, a [bool]) when pandas reads the field as a missing value or the
    column of the batch as numbers or booleans.  The pipeline looks at no
    value of the second kind: [chess.Board] and [Move.from_uci] raise on it
    first. *)
Inductive value : Type :=
  | Str (s : string)
  | NotStr.

#[global] Instance value_eq_dec : EqDecision value.
Proof. solve_decision. Defined.

(** [for x in xs: acc = body(acc, x)], stopping at the first exception. *)
Fixpoint for_each {A S} (body : S -> A -> result S) (xs : list A) (acc : S) : result S :=
  match xs with
  | [] => Ok acc
  | x :: xs' => acc' ← body acc x; for_each body xs' acc'
  end.

(** [[f(x) for x in xs]], stopping at the first exception. *)
Fixpoint map_each {A B} (f : A -> result B) (xs : list A) : result (list B) :=
  match xs with
  | [] => Ok []
  | x :: xs' => y ← f x; ys ← map_each f xs'; Ok (y :: ys)
  end.

(** *** [str]

    A Python [str] is a Rocq [string]; its characters are the code points
    below 256. *)

(** [c.isspace()] on those code points: TAB..CR, FS..US, SPACE, NEL, NBSP. *)
Definition isspace (c : ascii) : bool :=
  let n := nat_of_ascii c in
  (((9 <=? n) && (n <=? 13)) || ((28 <=? n) && (n <=? 32)) || (n =? 133) || (n =? 160))%nat.

(** [s.split()]: the maximal runs of non-whitespace characters. *)
Fixpoint str_split (s : string) : list string :=
  match s with
  | EmptyString => []
  | String c s' =>
      if isspace c then str_split s'
      else match s' with
           | EmptyString => [String c EmptyString]
           | String c' _ =>
               if isspace c' then String c EmptyString :: str_split s'
               else match str_split s' with
                    | w :: ws => String c w :: ws
                    | [] => [String c EmptyString]
                    end
           end
  end.

(** [s.split(sep)] for a one-character separator: never empty. *)
Fixpoint str_split_on (sep : ascii) (s : string) : list string :=
  match s with
  | EmptyString => [EmptyString]
  | String c s' =>
      if Ascii.eqb c sep then EmptyString :: str_split_on sep s'
      else match str_split_on sep s' with
           | w :: ws => String c w :: ws
           | [] => [String c EmptyString]
           end
  end.

(** [c in s] for a one-character [c]. *)
Fixpoint str_contains (c : ascii) (s : string) : bool :=
  match s with
  | EmptyString => false
  | String c' s' => Ascii.eqb c c' || str_contains c s'
  end.

(** [c * n] for a one-character [c]. *)
Fixpoint str_repeat (c : ascii) (n : nat) : string :=
  match n with
  | O => EmptyString
  | S n' => String c (str_repeat c n')
  end.

(** [int(c)] for a decimal digit [c]. *)
Definition int_of_digit (c : ascii) : nat := nat_of_ascii c - 48.

(** [xs[i]] on a list and [s[i]] on a string, for [i >= 0]. *)
Definition list_getitem {A} (xs : list A) (i : nat) : result A :=
  match xs !! i with
  | Some x => Ok x
  | None => Err IndexError
  end.

Definition str_getitem (s : string) (i : nat) : result ascii :=
  match String.get i s with
  | Some c => Ok c
  | None => Err IndexError
  end.

(** *** numpy

    [np.zeros(n)] is a vector of [n] float64 zeros, [a[i] = 1] stores 1.0.
    The cells of this program only ever hold 0.0 or 1.0 and are added up to
    at most 64, which float64 does exactly: they are the integers 0 and 1
    here. *)
Definition np_zeros (n : nat) : list Z := replicate n 0%Z.

Definition np_setitem (a : list Z) (i : nat) (x : Z) : result (list Z) :=
  if decide (i < length a) then Ok (<[i:=x]> a) else Err IndexError.

(** ** The board encoder: [fen_to_array] *)

(** [piece_dict]: the fixed table from a board character to its class. *)
Definition piece_dict (c : ascii) : option nat :=
  match c with
  | "0"%char => Some 0
  | "P"%char => Some 1
  | "N"%char => Some 2
  | "B"%char => Some 3
  | "R"%char => Some 4
  | "Q"%char => Some 5
  | "K"%char => Some 6
  | "p"%char => Some 7
  | "n"%char => Some 8
  | "b"%char => Some 9
  | "r"%char => Some 10
  | "q"%char => Some 11
  | "k"%char => Some 12
  | _ => None
  end.

Definition dict_getitem (c : ascii) : result nat :=
  match piece_dict c with
  | Some k => Ok k
  | None => Err (KeyError c)
  end.

(** [addon = char if char not in '12345678' else '0' * int(char)] *)
Definition addon (char : ascii) : string :=
  if negb (str_contains char "12345678") then String char EmptyString
  else str_repeat "0" (int_of_digit char).

(** The two nested loops that build [board_string] from the placement
    field [placement = fen.split()[0]]. *)
Definition expand_row (board_string row : string) : string :=
  fold_left (fun bs char => bs ++ addon char) (list_ascii_of_string row) board_string.

Definition expand_placement (placement : string) : string :=
  fold_left expand_row (str_split_on "/" placement) EmptyString.

(** One turn of [for _ in range(64)]. *)
Definition mark_square (board_string : string) (board_array : list Z) (i : nat)
  : result (list Z) :=
  c ← str_getitem board_string i;
  k ← dict_getitem c;
  np_setitem board_array (13 * i + k) 1%Z.

Definition fen_to_array (fen : string) : result (list Z) :=
  let board_array := np_zeros 832 in
  placement ← list_getitem (str_split fen) 0;
  let board_string := expand_placement placement in
  if negb (String.length board_string =? 64)%nat
  then Err (ValueError_board_string (String.length board_string))
  else for_each (mark_square board_string) (seq 0 64) board_array.

(** ** The rules engine

    Chess rules are an external capability (python-chess).  The pipeline
    uses it through the operations below; each one is named after the
    python-chess call it stands for and fails with the exception that call
    raises. *)
Class RulesEngine : Type := {
  board : Type;
  move : Type;
  board_eq_dec :: EqDecision board;
  move_eq_dec :: EqDecision move;                    (* [Move.__eq__]: field by field *)
  Board : string -> result board;                    (* [chess.Board(fen)] *)
  fen : board -> string;                             (* [board.fen()] *)
  legal_moves : board -> list move;                  (* [board.legal_moves], in iteration order *)
  from_uci : string -> result move;                  (* [chess.Move.from_uci(uci)] *)
  uci : move -> string;                              (* [move.uci()] *)
  push_uci : board -> string -> result board;        (* [board.push_uci(uci)] *)
  pop : board -> result board;                       (* [board.pop()] *)
}.

(** ** The csv reader

    [pd.read_csv] types what it reads, batch by batch and column by column:
    [read_column] is given the fields of one column of one batch as they
    stand in the file and returns the cells of the frame.  A cell that is a
    [str] holds the text of its field. *)
Class CsvReader : Type := {
  read_column : list string -> list value;
  read_column_length : forall col, length (read_column col) = length col;
  read_column_str : forall col i s,
    read_column col !! i = Some (Str s) -> col !! i = Some s;
}.

(** ** The pipeline *)

(** A row of [puzzle_df]. *)
Module Puzzle.
Record t : Type := Build { FEN : string; Moves : string }.
End Puzzle.

(** A row of the frame [puzzle_cleaning] returns, which is also a record
    of the csv file [make_converted_file] reads: its two fields as they
    stand in the file. *)
Module Cleaned.
Record t : Type := Build { FEN : string; target_move : string }.
End Cleaned.

(** A row of a frame [pd.read_csv] yields. *)
Module Row.
Record t : Type := Build { FEN : value; target_move : value }.
End Row.

(** A row of the frame [possible_moves] returns. *)
Record candidate : Type := Candidate { Position : list Z; Target : Z }.

(** A line of the output csv file. *)
Inductive cell : Type :=
  | Cell_array (a : list Z)
  | Cell_float (x : Z).

Inductive csv_line : Type :=
  | Header (names : list string)
  | Data (cells : list cell).

Inductive file_mode : Type := mode_w | mode_a.

Section Pipeline.
Context {E : RulesEngine} {R : CsvReader}.

Definition single_move (game_series : Puzzle.t) : result string :=
  b ← Board (Puzzle.FEN game_series);
  first_move ← list_getitem (str_split (Puzzle.Moves game_series)) 0;
  b' ← push_uci b first_move;
  Ok (fen b').

(** The two columns are computed one after the other, each over the
    whole frame.  On a frame without rows [apply] calls nothing and returns
    a frame, not a column, and the assignment to [new_df['FEN']] raises. *)
Definition puzzle_cleaning (puzzle_df : list Puzzle.t) : result (list Cleaned.t) :=
  match puzzle_df with
  | [] => Err ValueError_setitem
  | _ =>
      fens ← map_each single_move puzzle_df;
      targets ← map_each (fun r => list_getitem (str_split (Puzzle.Moves r)) 1) puzzle_df;
      Ok (zip_with Cleaned.Build fens targets)
  end.

(** One turn of [for move in board.legal_moves].  The state is the
    mutable [board] and [array_list]. *)
Definition try_move (target : string) (st : board * list candidate) (m : move)
  : result (board * list candidate) :=
  let '(b, array_list) := st in
  b1 ← push_uci b (uci m);
  let candidate_fen := fen b1 in
  t ← from_uci target;
  let target_val := if decide (m = t) then 1%Z else 0%Z in
  a ← fen_to_array candidate_fen;
  let array_list := (array_list ++ [Candidate a target_val])%list in
  b2 ← pop b1;
  Ok (b2, array_list).

(** [board.legal_moves] is generated lazily from the board the loop body
    mutates; every turn pops what it pushed, so the moves enumerated are
    those of the board as it was built. *)
Definition possible_moves (fen_series : Cleaned.t) : result (list candidate) :=
  let start_fen := Cleaned.FEN fen_series in
  let target := Cleaned.target_move fen_series in
  b ← Board start_fen;
  st ← for_each (try_move target) (legal_moves b) (b, []);
  Ok st.2.

(** [chess.Board(v)] and [chess.Move.from_uci(v)] on a value of a frame:
    the first calls [v.split()], the second [len(v)]. *)
Definition Board_of_value (v : value) : result board :=
  match v with
  | Str s => Board s
  | NotStr => Err AttributeError
  end.

Definition from_uci_of_value (v : value) : result move :=
  match v with
  | Str s => from_uci s
  | NotStr => Err TypeError
  end.

(** [possible_moves] as [make_converted_file] applies it: to a row of a
    frame read from a csv file, whose cells need not be strings. *)
Definition try_move_row (target : value) (st : board * list candidate) (m : move)
  : result (board * list candidate) :=
  let '(b, array_list) := st in
  b1 ← push_uci b (uci m);
  let candidate_fen := fen b1 in
  t ← from_uci_of_value target;
  let target_val := if decide (m = t) then 1%Z else 0%Z in
  a ← fen_to_array candidate_fen;
  let array_list := (array_list ++ [Candidate a target_val])%list in
  b2 ← pop b1;
  Ok (b2, array_list).

Definition possible_moves_row (fen_series : Row.t) : result (list candidate) :=
  let start_fen := Row.FEN fen_series in
  let target := Row.target_move fen_series in
  b ← Board_of_value start_fen;
  st ← for_each (try_move_row target) (legal_moves b) (b, []);
  Ok st.2.

(** [pd.concat(frames, ignore_index=True)] *)
Definition pd_concat (frames : list (list candidate)) : result (list candidate) :=
  match frames with
  | [] => Err ValueError_concat
  | _ => Ok (concat frames)
  end.

(** The column [name] of a frame of candidates. *)
Definition select_column (name : string) : result (candidate -> cell) :=
  if decide (name = "Position") then Ok (fun r => Cell_array (Position r))
  else if decide (name = "Target") then Ok (fun r => Cell_float (Target r))
  else Err (KeyError_column name).

(** [df.to_csv(outfile, columns=columns, header=header, mode=mode, index=False)]:
    the new content of [outfile]. *)
Definition to_csv (df : list candidate) (outfile : list csv_line)
    (columns : list string) (header : bool) (mode : file_mode)
  : result (list csv_line) :=
  getters ← map_each select_column columns;
  let old := match mode with mode_w => [] | mode_a => outfile end in
  let head := if header then [Header columns] else [] in
  Ok (old ++ head ++ map (fun r => Data (map (fun g => g r) getters)) df)%list.

(** [pd.read_csv(infile, chunksize=n)]: frames of [n] rows, the last one
    shorter; a file with a header line and no record gives one empty
    frame.  Each frame is typed on its own. *)
Fixpoint chunks_of (fuel n : nat) (rows : list Cleaned.t) : list (list Cleaned.t) :=
  match fuel with
  | O => []
  | S fuel' =>
      match rows with
      | [] => []
      | _ => take n rows :: chunks_of fuel' n (drop n rows)
      end
  end.

Definition read_chunk (chunk : list Cleaned.t) : list Row.t :=
  zip_with Row.Build (read_column (Cleaned.FEN <$> chunk))
                     (read_column (Cleaned.target_move <$> chunk)).

Definition read_csv (rows : list Cleaned.t) (chunksize : nat) : list (list Row.t) :=
  read_chunk <$> match rows with
                 | [] => [[]]
                 | _ => chunks_of (length rows) chunksize rows
                 end.

(** The body of [for i, chunk in enumerate(...)]. *)
Definition convert_chunk (out_cols : list string) (i : nat)
    (chunk : list Row.t) (outfile : list csv_line) : result (list csv_line) :=
  let header := (i =? 0)%nat in
  let mode := if (i =? 0)%nat then mode_w else mode_a in
  chunk_df ← map_each possible_moves_row chunk;
  restacked_df ← pd_concat chunk_df;
  to_csv restacked_df outfile out_cols header mode.

(** The loop: the content of [outfile] when it ends, and how it ended. *)
Fixpoint convert_chunks (out_cols : list string) (i : nat)
    (chunks : list (list Row.t)) (outfile : list csv_line)
  : list csv_line * result unit :=
  match chunks with
  | [] => (outfile, Ok tt)
  | chunk :: rest =>
      match convert_chunk out_cols i chunk outfile with
      | Ok outfile' => convert_chunks out_cols (S i) rest outfile'
      | Err e => (outfile, Err e)
      end
  end.

(** [infile] is the records of the csv file read, [outfile] the content
    of the file written before the call. *)
Definition make_converted_file (infile : list Cleaned.t) (outfile : list csv_line)
    (out_cols : option (list string)) : list csv_line * result unit :=
  let out_cols := match out_cols with
                  | None => ["Position"; "Target"]
                  | Some cols => cols
                  end in
  convert_chunks out_cols 0 (read_csv infile 100) outfile.

End Pipeline.

(** ** python-chess

    The rules engine the program runs on: standard chess as python-chess
    implements it (no variants, no Chess960), on positions with one king of
    each colour and no piece marked as promoted.  Squares are numbered as
    in python-chess, a1 = 0, b1 = 1, ..., h8 = 63, and moves are enumerated
    in the order of its generator. *)
Module PyChess.

Inductive color : Type := WHITE | BLACK.
Inductive piece_type : Type := PAWN | KNIGHT | BISHOP | ROOK | QUEEN | KING.
Record piece : Type := Piece { piece_type_of : piece_type; color_of : color }.

(** [chess.Move]; the null move is [Move 0 0 None None]. *)
Record move : Type := Move {
  from_square : nat;
  to_square : nat;
  promotion : option piece_type;
  drop : option piece_type;
}.

(** The castling flags of the four corner rooks. *)
Record castling : Type := Castling { wk : bool; wq : bool; bk : bool; bq : bool }.

Record position : Type := MkPosition {
  squares : list (option piece);     (* 64 cells, by square number *)
  turn : color;
  castling_rights : castling;
  ep_square : option nat;
  halfmove_clock : nat;
  fullmove_number : nat;
}.

(** A board is its current position and the stack [push] saves the earlier
    ones on. *)
Record board : Type := MkBoard { current : position; stack : list position }.

#[global] Instance color_eq_dec : EqDecision color.
Proof. solve_decision. Defined.
#[global] Instance piece_type_eq_dec : EqDecision piece_type.
Proof. solve_decision. Defined.
#[global] Instance piece_eq_dec : EqDecision piece.
Proof. solve_decision. Defined.
#[global] Instance move_eq_dec : EqDecision move.
Proof. solve_decision. Defined.
#[global] Instance castling_eq_dec : EqDecision castling.
Proof. solve_decision. Defined.
#[global] Instance position_eq_dec : EqDecision position.
Proof. solve_decision. Defined.
#[global] Instance board_eq_dec : EqDecision board.
Proof. solve_decision. Defined.

Definition opposite (c : color) : color :=
  match c with WHITE => BLACK | BLACK => WHITE end.

Definition square_file (s : nat) : nat := s mod 8.
Definition square_rank (s : nat) : nat := s / 8.

(** *** Symbols and names *)

Definition piece_symbol (t : piece_type) : ascii :=
  match t with
  | PAWN => "p" | KNIGHT => "n" | BISHOP => "b"
  | ROOK => "r" | QUEEN => "q" | KING => "k"
  end%char.

(** [PIECE_SYMBOLS.index(c)] *)
Definition piece_type_of_symbol (c : ascii) : option piece_type :=
  match c with
  | "p" => Some PAWN | "n" => Some KNIGHT | "b" => Some BISHOP
  | "r" => Some ROOK | "q" => Some QUEEN | "k" => Some KING
  | _ => None
  end%char.

Definition is_upper (c : ascii) : bool :=
  ((65 <=? nat_of_ascii c) && (nat_of_ascii c <=? 90))%nat.

Definition to_lower (c : ascii) : ascii :=
  if is_upper c then ascii_of_nat (nat_of_ascii c + 32) else c.

Definition to_upper (c : ascii) : ascii :=
  if ((97 <=? nat_of_ascii c) && (nat_of_ascii c <=? 122))%nat
  then ascii_of_nat (nat_of_ascii c - 32) else c.

(** [Piece.from_symbol] and [Piece.symbol] *)
Definition piece_of_symbol (c : ascii) : option piece :=
  t ← piece_type_of_symbol (to_lower c);
  Some (Piece t (if is_upper c then WHITE else BLACK)).

Definition symbol_of_piece (p : piece) : ascii :=
  match color_of p with
  | WHITE => to_upper (piece_symbol (piece_type_of p))
  | BLACK => piece_symbol (piece_type_of p)
  end.

(** [SQUARE_NAMES[s]] and [SQUARE_NAMES.index(name)] *)
Definition square_name (s : nat) : string :=
  String (ascii_of_nat (97 + square_file s))
    (String (ascii_of_nat (49 + square_rank s)) EmptyString).

Definition parse_square (name : string) : option nat :=
  match name with
  | String f (String r EmptyString) =>
      let f := nat_of_ascii f in
      let r := nat_of_ascii r in
      if ((97 <=? f) && (f <=? 104) && (49 <=? r) && (r <=? 56))%nat
      then Some ((f - 97) + 8 * (r - 49))%nat
      else None
  | _ => None
  end.

(** [Move.uci] and [Move.from_uci] *)
Definition is_null (m : move) : bool :=
  bool_decide (m = Move 0 0 None None).

Definition uci (m : move) : string :=
  match drop m, promotion m with
  | Some d, _ =>
      String (to_upper (piece_symbol d)) (String "@" (square_name (to_square m)))
  | None, Some p =>
      square_name (from_square m) ++ square_name (to_square m)
        ++ String (piece_symbol p) EmptyString
  | None, None =>
      if is_null m then "0000"
      else square_name (from_square m) ++ square_name (to_square m)
  end.

Definition from_uci (s : string) : result move :=
  if decide (s = "0000") then Ok (Move 0 0 None None)
  else match s with
  | String d (String "@" sq) =>
      if (String.length sq =? 2)%nat then
        match piece_type_of_symbol (to_lower d), parse_square sq with
        | Some d, Some q => Ok (Move q q None (Some d))
        | _, _ => Err InvalidMoveError
        end
      else Err InvalidMoveError
  | String f1 (String r1 (String f2 (String r2 rest))) =>
      let sq1 := parse_square (String f1 (String r1 EmptyString)) in
      let sq2 := parse_square (String f2 (String r2 EmptyString)) in
      let promo :=
        match rest with
        | EmptyString => Some None
        | String p EmptyString => Some <$> piece_type_of_symbol p
        | _ => None
        end in
      match sq1, sq2, promo with
      | Some a, Some b, Some p =>
          if decide (a = b) then Err InvalidMoveError else Ok (Move a b p None)
      | _, _, _ => Err InvalidMoveError
      end
  | _ => Err InvalidMoveError
  end.

(** *** Reading a FEN: [Board.set_fen] *)

(** One rank of the placement field: its eight cells, or [None] where
    [_set_board_fen] raises (two digits in a row, an unknown character, a
    misplaced promotion mark, a sum other than 8).  The promotion mark [~]
    is read and not kept: python-chess remembers it, and looks at it for
    kings only. *)
Fixpoint parse_rank (row : string) (previous_was_digit previous_was_piece : bool)
  : option (list (option piece)) :=
  match row with
  | EmptyString => Some []
  | String c row' =>
      if str_contains c "12345678" then
        if previous_was_digit then None
        else cells ← parse_rank row' true false;
             Some (replicate (int_of_digit c) None ++ cells)%list
      else if Ascii.eqb c "~" then
        if previous_was_piece then parse_rank row' false false else None
      else
        p ← piece_of_symbol c;
        cells ← parse_rank row' false true;
        Some (Some p :: cells)
  end.

Fixpoint parse_ranks (rows : list string) : option (list (list (option piece))) :=
  match rows with
  | [] => Some []
  | row :: rows' =>
      cells ← parse_rank row false false;
      if (length cells =? 8)%nat
      then rest ← parse_ranks rows'; Some (cells :: rest)
      else None
  end.

(** The placement field lists rank 8 first; square numbers start at
    rank 1. *)
Definition parse_board_fen (board_part : string) : option (list (option piece)) :=
  let rows := str_split_on "/" board_part in
  if (length rows =? 8)%nat
  then ranks ← parse_ranks rows; Some (concat (reverse ranks))
  else None.

(** [FEN_CASTLING_REGEX]: a dash, or at most two of [KQABCDEFGH] followed
    by at most two of [kqabcdefgh]. *)
Fixpoint strip_prefix_in (alphabet : string) (n : nat) (s : string) : string :=
  match n, s with
  | S n', String c s' => if str_contains c alphabet then strip_prefix_in alphabet n' s' else s
  | _, _ => s
  end.

Definition castling_part_ok (s : string) : bool :=
  bool_decide (s = "-")
  || bool_decide (strip_prefix_in "kqabcdefgh" 2 (strip_prefix_in "KQABCDEFGH" 2 s) = "").

(** [_set_castling_fen], for the corner rooks standard chess castles
    with: [K] and [H] name the h1 rook, [Q] and [A] the a1 rook. *)
Definition parse_castling (s : string) : castling :=
  Castling (str_contains "K" s || str_contains "H" s)
           (str_contains "Q" s || str_contains "A" s)
           (str_contains "k" s || str_contains "h" s)
           (str_contains "q" s || str_contains "a" s).

(** [int(s)] for the numerals of a FEN: an optional sign and digits, which
    single underscores may separate. *)
Fixpoint parse_digits (s : string) (acc : nat) (after_digit : bool) : option nat :=
  match s with
  | EmptyString => if after_digit then Some acc else None
  | String c s' =>
      if str_contains c "0123456789"
      then parse_digits s' (10 * acc + int_of_digit c) true
      else if Ascii.eqb c "_" && after_digit
      then parse_digits s' acc false
      else None
  end.

(** The value when it is not negative. *)
Definition parse_counter (s : string) : option nat :=
  match s with
  | String "+" s' => parse_digits s' 0 false
  | String "-" s' =>
      n ← parse_digits s' 0 false;
      if (n =? 0)%nat then Some 0 else None
  | _ => parse_digits s 0 false
  end.

Definition set_fen (fen : string) : option position :=
  match str_split fen with
  | [] => None
  | board_part :: parts =>
      let turn_part := parts !! 0 in
      let castling_part := default "-" (parts !! 1) in
      let ep_part := parts !! 2 in
      let halfmove_part := parts !! 3 in
      let fullmove_part := parts !! 4 in
      t ← match turn_part with
          | None => Some WHITE
          | Some s => if decide (s = "w") then Some WHITE
                      else if decide (s = "b") then Some BLACK else None
          end;
      _ ← guard (castling_part_ok castling_part = true);
      ep ← match ep_part with
           | None => Some None
           | Some s => if decide (s = "-") then Some None else Some <$> parse_square s
           end;
      hm ← match halfmove_part with
           | None => Some 0
           | Some s => parse_counter s
           end;
      fm ← match fullmove_part with
           | None => Some 1
           | Some s => n ← parse_counter s; Some (Nat.max n 1)
           end;
      _ ← guard (length parts <= 5);
      sqs ← parse_board_fen board_part;
      Some (MkPosition sqs t (parse_castling castling_part) ep hm fm)
  end.

(** *** Attacks *)

Definition piece_at (sqs : list (option piece)) (s : nat) : option piece :=
  mjoin (sqs !! s).

Definition occupied (sqs : list (option piece)) (s : nat) : bool :=
  bool_decide (is_Some (piece_at sqs s)).

Definition has_piece (sqs : list (option piece)) (c : color) (ts : list piece_type)
    (s : nat) : bool :=
  match piece_at sqs s with
  | Some p => bool_decide (color_of p = c) && bool_decide (piece_type_of p ∈ ts)
  | None => false
  end.

Definition has_color (sqs : list (option piece)) (c : color) (s : nat) : bool :=
  has_piece sqs c [PAWN; KNIGHT; BISHOP; ROOK; QUEEN; KING] s.

(** The square [d.1] files and [d.2] ranks away from [s], when on the
    board. *)
Definition offset (s : nat) (d : Z * Z) : option nat :=
  let f := (Z.of_nat (square_file s) + d.1)%Z in
  let r := (Z.of_nat (square_rank s) + d.2)%Z in
  if ((0 <=? f) && (f <? 8) && (0 <=? r) && (r <? 8))%Z
  then Some (Z.to_nat (f + 8 * r))
  else None.

(** The squares a slider sees from [s] in direction [d]: up to and
    including the first occupied one. *)
Fixpoint ray (occ : nat -> bool) (fuel : nat) (s : nat) (d : Z * Z) : list nat :=
  match fuel with
  | O => []
  | S fuel' =>
      match offset s d with
      | None => []
      | Some t => if occ t then [t] else t :: ray occ fuel' t d
      end
  end.

Definition knight_steps : list (Z * Z) :=
  [(1, 2); (2, 1); (2, -1); (1, -2); (-1, -2); (-2, -1); (-2, 1); (-1, 2)]%Z.
Definition rook_steps : list (Z * Z) := [(1, 0); (-1, 0); (0, 1); (0, -1)]%Z.
Definition bishop_steps : list (Z * Z) := [(1, 1); (1, -1); (-1, 1); (-1, -1)]%Z.
Definition king_steps : list (Z * Z) := (rook_steps ++ bishop_steps)%list.
Definition pawn_steps (c : color) : list (Z * Z) :=
  match c with
  | WHITE => [(-1, 1); (1, 1)]
  | BLACK => [(-1, -1); (1, -1)]
  end%Z.

Definition steps_from (s : nat) (ds : list (Z * Z)) : list nat := omap (offset s) ds.
Definition rays_from (occ : nat -> bool) (s : nat) (ds : list (Z * Z)) : list nat :=
  ds ≫= ray occ 7 s.

(** [attacks_mask(s)]: the squares the piece on [s] attacks. *)
Definition attacks (sqs : list (option piece)) (s : nat) : list nat :=
  match piece_at sqs s with
  | None => []
  | Some p =>
      match piece_type_of p with
      | PAWN => steps_from s (pawn_steps (color_of p))
      | KNIGHT => steps_from s knight_steps
      | KING => steps_from s king_steps
      | BISHOP => rays_from (occupied sqs) s bishop_steps
      | ROOK => rays_from (occupied sqs) s rook_steps
      | QUEEN => rays_from (occupied sqs) s king_steps
      end
  end.

(** [attackers_mask(c, s, occ)] is not empty: a piece of colour [c]
    attacks [s] when the sliders are blocked by [occ]. *)
Definition attacked_by (sqs : list (option piece)) (occ : nat -> bool)
    (c : color) (s : nat) : bool :=
  existsb (has_piece sqs c [KING]) (steps_from s king_steps)
  || existsb (has_piece sqs c [KNIGHT]) (steps_from s knight_steps)
  || existsb (has_piece sqs c [ROOK; QUEEN]) (rays_from occ s rook_steps)
  || existsb (has_piece sqs c [BISHOP; QUEEN]) (rays_from occ s bishop_steps)
  || existsb (has_piece sqs c [PAWN]) (steps_from s (pawn_steps (opposite c))).

(** *** Playing a move: [Board.push] *)

Definition A1 : nat := 0.
Definition C1 : nat := 2.
Definition D1 : nat := 3.
Definition E1 : nat := 4.
Definition F1 : nat := 5.
Definition G1 : nat := 6.
Definition H1 : nat := 7.
Definition A8 : nat := 56.
Definition C8 : nat := 58.
Definition D8 : nat := 59.
Definition E8 : nat := 60.
Definition F8 : nat := 61.
Definition G8 : nat := 62.
Definition H8 : nat := 63.

(** Castling is "king takes its own rook" inside [push]. *)
Definition to_chess960 (sqs : list (option piece)) (m : move) : move :=
  let kings q := has_piece sqs WHITE [KING] q || has_piece sqs BLACK [KING] q in
  let rooks q := has_piece sqs WHITE [ROOK] q || has_piece sqs BLACK [ROOK] q in
  if bool_decide (from_square m = E1) && kings E1 then
    if bool_decide (to_square m = G1) && negb (rooks G1) then Move E1 H1 None None
    else if bool_decide (to_square m = C1) && negb (rooks C1) then Move E1 A1 None None
    else m
  else if bool_decide (from_square m = E8) && kings E8 then
    if bool_decide (to_square m = G8) && negb (rooks G8) then Move E8 H8 None None
    else if bool_decide (to_square m = C8) && negb (rooks C8) then Move E8 A8 None None
    else m
  else m.

(** And "king moves two squares" outside of it. *)
Definition from_chess960 (sqs : list (option piece)) (m : move) : move :=
  let kings q := has_piece sqs WHITE [KING] q || has_piece sqs BLACK [KING] q in
  if bool_decide (from_square m = E1) && kings E1 then
    if bool_decide (to_square m = H1) then Move E1 G1 None None
    else if bool_decide (to_square m = A1) then Move E1 C1 None None
    else m
  else if bool_decide (from_square m = E8) && kings E8 then
    if bool_decide (to_square m = H8) then Move E8 G8 None None
    else if bool_decide (to_square m = A8) then Move E8 C8 None None
    else m
  else m.

(** [clean_castling_rights]: a flag counts while its rook stands on its
    corner and its king on the e-file. *)
Definition clean_castling_rights (p : position) : castling :=
  let sqs := squares p in
  let r := castling_rights p in
  let wking := has_piece sqs WHITE [KING] E1 in
  let bking := has_piece sqs BLACK [KING] E8 in
  Castling (wk r && has_piece sqs WHITE [ROOK] H1 && wking)
           (wq r && has_piece sqs WHITE [ROOK] A1 && wking)
           (bk r && has_piece sqs BLACK [ROOK] H8 && bking)
           (bq r && has_piece sqs BLACK [ROOK] A8 && bking).

Definition touch (r : castling) (s : nat) : castling :=
  Castling (wk r && negb (bool_decide (s = H1))) (wq r && negb (bool_decide (s = A1)))
           (bk r && negb (bool_decide (s = H8))) (bq r && negb (bool_decide (s = A8))).

Definition clear_rank (r : castling) (c : color) : castling :=
  match c with
  | WHITE => Castling false false (bk r) (bq r)
  | BLACK => Castling (wk r) (wq r) false false
  end.

Definition push_position (p : position) (m0 : move) : position :=
  let sqs := squares p in
  let us := turn p in
  let m := to_chess960 sqs m0 in
  let rights := clean_castling_rights p in
  let halfmove := S (halfmove_clock p) in
  let fullmove :=
    match us with BLACK => S (fullmove_number p) | WHITE => fullmove_number p end in
  if is_null m then MkPosition sqs (opposite us) rights None halfmove fullmove
  else match drop m with
  | Some d =>
      MkPosition (<[to_square m := Some (Piece d us)]> sqs) (opposite us) rights None
               halfmove fullmove
  | None =>
      let src := from_square m in
      let dst := to_square m in
      let zeroing :=
        has_piece sqs WHITE [PAWN] src || has_piece sqs BLACK [PAWN] src
        || has_piece sqs WHITE [PAWN] dst || has_piece sqs BLACK [PAWN] dst
        || has_color sqs (opposite us) src || has_color sqs (opposite us) dst in
      let halfmove := if zeroing then 0 else halfmove in
      let moved := piece_type_of <$> piece_at sqs src in
      let captured := piece_type_of <$> piece_at sqs dst in
      let sqs1 := <[src := None]> sqs in
      let rights := touch (touch rights dst) src in
      let rights :=
        if bool_decide (moved = Some KING) then clear_rank rights us
        else if bool_decide (captured = Some KING) then
          match us with
          | WHITE => if bool_decide (square_rank dst = 7)
                     then clear_rank rights BLACK else rights
          | BLACK => if bool_decide (square_rank dst = 0)
                     then clear_rank rights WHITE else rights
          end
        else rights in
      let is_pawn := bool_decide (moved = Some PAWN) in
      let new_ep :=
        if is_pawn && bool_decide (dst = src + 16) && bool_decide (square_rank src = 1)
        then Some (src + 8)
        else if is_pawn && bool_decide (src = dst + 16) && bool_decide (square_rank src = 6)
        then Some (src - 8)
        else None in
      let en_passant :=
        is_pawn && bool_decide (new_ep = None)
        && bool_decide (ep_square p = Some dst)
        && (bool_decide (dst = src + 7) || bool_decide (dst = src + 9)
            || bool_decide (src = dst + 7) || bool_decide (src = dst + 9))
        && bool_decide (captured = None) in
      let sqs2 :=
        if en_passant
        then <[(match us with WHITE => dst - 8 | BLACK => dst + 8 end) := None]> sqs1
        else sqs1 in
      let placed :=
        match promotion m with
        | Some t => Some t
        | None => moved
        end in
      let castles := bool_decide (placed = Some KING) && has_color sqs2 us dst in
      let sqs3 :=
        if castles then
          let a_side := bool_decide (square_file dst < square_file src) in
          let back := match us with WHITE => 0 | BLACK => 56 end in
          let cleared := <[dst := None]> sqs2 in
          if a_side
          then <[back + D1 := Some (Piece ROOK us)]>
                 (<[back + C1 := Some (Piece KING us)]> cleared)
          else <[back + F1 := Some (Piece ROOK us)]>
                 (<[back + G1 := Some (Piece KING us)]> cleared)
        else <[dst := (fun t => Piece t us) <$> placed]> sqs2 in
      MkPosition sqs3 (opposite us) rights new_ep halfmove fullmove
  end.

(** *** Move generation *)

(** [scan_reversed]: squares from h8 down to a1. *)
Definition squares_desc : list nat := reverse (seq 0 64).

Definition with_promotions (src dst : nat) : list move :=
  if bool_decide (square_rank dst = 0) || bool_decide (square_rank dst = 7)
  then [Move src dst (Some QUEEN) None; Move src dst (Some ROOK) None;
        Move src dst (Some BISHOP) None; Move src dst (Some KNIGHT) None]
  else [Move src dst None None].

Definition piece_moves (p : position) : list move :=
  let sqs := squares p in
  src ← filter (fun s => has_piece sqs (turn p) [KNIGHT; BISHOP; ROOK; QUEEN; KING] s)
               squares_desc;
  dst ← filter (fun t => t ∈ attacks sqs src ∧ has_color sqs (turn p) t = false)
               squares_desc;
  [Move src dst None None].

(** The squares strictly between two squares of one rank. *)
Definition between (a b : nat) : list nat :=
  filter (fun q => a `min` b < q < a `max` b) (seq 0 64).

Definition castling_moves (p : position) : list move :=
  let sqs := squares p in
  let us := turn p in
  let back := match us with WHITE => 0 | BLACK => 56 end in
  let rights := clean_castling_rights p in
  let candidates :=
    match us with
    | WHITE => (if wk rights then [H1] else []) ++ (if wq rights then [A1] else [])
    | BLACK => (if bk rights then [H8] else []) ++ (if bq rights then [A8] else [])
    end%list in
  match filter (fun s => has_piece sqs us [KING] s) (seq back 8) with
  | [] => []
  | king :: _ =>
      rook ← candidates;
      let a_side := bool_decide (rook < king) in
      let king_to := back + (if a_side then C1 else G1) in
      let rook_to := back + (if a_side then D1 else F1) in
      let king_path := between king king_to in
      let rook_path := between rook rook_to in
      let without_king q := occupied sqs q && negb (bool_decide (q = king)) in
      let without_both q := without_king q && negb (bool_decide (q = rook)) in
      let rook_moved q := xorb (xorb (xorb (occupied sqs q) (bool_decide (q = king)))
                                     (bool_decide (q = rook)))
                               (bool_decide (q = rook_to)) in
      if existsb without_both (king_path ++ rook_path ++ [king_to; rook_to])%list
         || existsb (attacked_by sqs without_king (opposite us)) (king_path ++ [king])%list
         || attacked_by sqs rook_moved (opposite us) king_to
      then []
      else [from_chess960 sqs (Move king rook None None)]
  end.

Definition pawn_captures (p : position) : list move :=
  let sqs := squares p in
  src ← filter (fun s => has_piece sqs (turn p) [PAWN] s) squares_desc;
  dst ← filter (fun t => t ∈ steps_from src (pawn_steps (turn p))
                         ∧ has_color sqs (opposite (turn p)) t = true)
               squares_desc;
  with_promotions src dst.

(** The square a pawn of colour [c] comes from when it arrives on [t]
    after [n] steps forward. *)
Definition pawn_origin (c : color) (n t : nat) : option nat :=
  match c with
  | WHITE => if bool_decide (8 * n <= t) then Some (t - 8 * n) else None
  | BLACK => if bool_decide (t + 8 * n < 64) then Some (t + 8 * n) else None
  end.

Definition single_step (p : position) (t : nat) : bool :=
  negb (occupied (squares p) t)
  && match pawn_origin (turn p) 1 t with
     | Some s => has_piece (squares p) (turn p) [PAWN] s
     | None => false
     end.

Definition double_step (p : position) (t : nat) : bool :=
  negb (occupied (squares p) t)
  && match turn p with
     | WHITE => bool_decide (square_rank t = 2) || bool_decide (square_rank t = 3)
     | BLACK => bool_decide (square_rank t = 5) || bool_decide (square_rank t = 4)
     end
  && match pawn_origin (turn p) 1 t with
     | Some s => single_step p s
     | None => false
     end.

Definition pawn_advances (p : position) : list move :=
  (dst ← filter (fun t => single_step p t = true) squares_desc;
   match pawn_origin (turn p) 1 dst with
   | Some src => with_promotions src dst
   | None => []
   end)
  ++ (dst ← filter (fun t => double_step p t = true) squares_desc;
      match pawn_origin (turn p) 2 dst with
      | Some src => [Move src dst None None]
      | None => []
      end).

(** [generate_pseudo_legal_ep] *)
Definition en_passant_moves (p : position) : list move :=
  let sqs := squares p in
  match ep_square p with
  | None => []
  | Some ep =>
      if bool_decide (ep = 0) || occupied sqs ep then []
      else
        src ← filter (fun s => has_piece sqs (turn p) [PAWN] s = true
                               ∧ s ∈ steps_from ep (pawn_steps (opposite (turn p)))
                               ∧ square_rank s = match turn p with WHITE => 4 | BLACK => 3 end)
                     squares_desc;
        [Move src ep None None]
  end.

Definition pseudo_legal_moves (p : position) : list move :=
  piece_moves p ++ castling_moves p ++ pawn_captures p ++ pawn_advances p
    ++ en_passant_moves p.

(** [Board.king(c)]: the highest square holding a king of colour [c]. *)
Definition king (sqs : list (option piece)) (c : color) : option nat :=
  head (filter (fun s => has_piece sqs c [KING] s) squares_desc).

Definition in_check (sqs : list (option piece)) (c : color) : bool :=
  match king sqs c with
  | Some k => attacked_by sqs (occupied sqs) (opposite c) k
  | None => false
  end.

(** The mover's king is not attacked once [m] is played.  python-chess
    decides it before the move, from the pins on the one king of the mover;
    the two agree when the mover has one king. *)
Definition is_safe (p : position) (m : move) : bool :=
  negb (in_check (squares (push_position p m)) (turn p)).

(** Out of check the pseudo-legal moves that are safe, in the order they
    are generated; in check the king's moves come first. *)
Definition legal_moves_of (p : position) : list move :=
  let safe := filter (fun m => is_safe p m = true) (pseudo_legal_moves p) in
  match king (squares p) (turn p) with
  | None => pseudo_legal_moves p
  | Some k =>
      if in_check (squares p) (turn p)
      then filter (fun m => from_square m = k) safe
             ++ filter (fun m => from_square m ≠ k) safe
      else safe
  end.

(** *** Writing a FEN: [Board.fen] *)

Definition str_of_nat (n : nat) : string := NilZero.string_of_uint (Nat.to_uint n).

Fixpoint rank_fen (cells : list (option piece)) (empty : nat) : string :=
  let flush := if (empty =? 0)%nat then "" else str_of_nat empty in
  match cells with
  | [] => flush
  | None :: cells' => rank_fen cells' (S empty)
  | Some pc :: cells' => flush ++ String (symbol_of_piece pc) (rank_fen cells' 0)
  end.

Definition board_fen (sqs : list (option piece)) : string :=
  String.concat "/"
    (map (fun r => rank_fen (take 8 (skipn (8 * r) sqs)) 0) (reverse (seq 0 8))).

Definition castling_xfen (p : position) : string :=
  let r := clean_castling_rights p in
  let flags :=
    (if wk r then "K" else "") ++ (if wq r then "Q" else "")
      ++ (if bk r then "k" else "") ++ (if bq r then "q" else "") in
  if decide (flags = "") then "-" else flags.

Definition has_legal_en_passant (p : position) : bool :=
  existsb (is_safe p) (en_passant_moves p).

Definition fen_of (p : position) : string :=
  String.concat " "
    [board_fen (squares p);
     match turn p with WHITE => "w" | BLACK => "b" end;
     castling_xfen p;
     match ep_square p with
     | Some ep => if has_legal_en_passant p then square_name ep else "-"
     | None => "-"
     end;
     str_of_nat (halfmove_clock p);
     str_of_nat (fullmove_number p)].

(** *** The board object *)

Definition Board (fen : string) : result board :=
  match set_fen fen with
  | Some p => Ok (MkBoard p [])
  | None => Err ValueError_fen
  end.

Definition push (b : board) (m : move) : board :=
  MkBoard (push_position (current b) m) (current b :: stack b).

Definition pop (b : board) : result board :=
  match stack b with
  | p :: st => Ok (MkBoard p st)
  | [] => Err IndexError
  end.

(** [parse_uci] lets the null move through and checks every other move. *)
Definition push_uci (b : board) (s : string) : result board :=
  m ← from_uci s;
  if is_null m then Ok (push b m)
  else
    let sqs := squares (current b) in
    let m := from_chess960 sqs (to_chess960 sqs m) in
    if bool_decide (m ∈ legal_moves_of (current b)) then Ok (push b m)
    else Err IllegalMoveError.

#[global] Instance engine : RulesEngine :=
  Build_RulesEngine board move _ _
    Board
    (fun b => fen_of (current b))
    (fun b => legal_moves_of (current b))
    from_uci uci push_uci pop.

End PyChess.

(** ** pandas

    The types [pd.read_csv] gives the fields of a batch under its default
    settings, after the C parser of pandas.  A field among the
    missing-value markers is NaN.  The parser tries to read the other
    fields of the column as int64 (then uint64), as float64 and as
    booleans, in this order, and the first that fits them all gives the
    type of the column; when none does, the column keeps the text of its
    fields.  Whether a number is too large for a float is not looked at. *)
Module Pandas.

(** [STR_NA_VALUES] *)
Definition na_values : list string :=
  [""; "#N/A"; "#N/A N/A"; "#NA"; "-1.#IND"; "-1.#QNAN"; "-NaN"; "-nan"; "1.#IND";
   "1.#QNAN"; "<NA>"; "N/A"; "NA"; "NULL"; "NaN"; "None"; "n/a"; "nan"; "null"].

Definition is_na (word : string) : bool := bool_decide (word ∈ na_values).

Definition isspace_ascii (c : ascii) : bool :=
  let n := nat_of_ascii c in
  ((n =? 32) || ((9 <=? n) && (n <=? 13)))%nat.

Definition isdigit_ascii (c : ascii) : bool :=
  let n := nat_of_ascii c in
  ((48 <=? n) && (n <=? 57))%nat.

Definition tolower_ascii (c : ascii) : ascii :=
  let n := nat_of_ascii c in
  if ((65 <=? n) && (n <=? 90))%nat then ascii_of_nat (n + 32) else c.

Fixpoint lower (s : string) : string :=
  match s with
  | EmptyString => EmptyString
  | String c s' => String (tolower_ascii c) (lower s')
  end.

Fixpoint skip_spaces (p : string) : string :=
  match p with
  | EmptyString => p
  | String c p' => if isspace_ascii c then skip_spaces p' else p
  end.

(** Whether a minus sign was read, and what follows the sign. *)
Definition skip_sign (p : string) : bool * string :=
  match p with
  | String "-" p' => (true, p')
  | String "+" p' => (false, p')
  | _ => (false, p)
  end.

(** The run of digits [p] starts with: its value, its length and what
    follows it. *)
Fixpoint digits (p : string) (number : Z) (num_digits : nat) : Z * nat * string :=
  match p with
  | EmptyString => (number, num_digits, p)
  | String c p' =>
      if isdigit_ascii c
      then digits p' (10 * number + Z.of_nat (int_of_digit c)) (S num_digits)
      else (number, num_digits, p)
  end.

(** How an attempt to convert a word or a column ends: with a value, on
    a character that does not belong (the next type is tried), on a number
    out of range, or on unsigned and negative numbers in one column. *)
Inductive conversion : Type := Converted | Invalid | Overflow | Conflict.

(** [str_to_int64] *)
Definition str_to_int64 (word : string) : conversion :=
  let '(isneg, p) := skip_sign (skip_spaces word) in
  let '(number, num_digits, p) := digits p 0 0 in
  if (num_digits =? 0)%nat then Invalid
  else if (if isneg : bool then 2 ^ 63 <? number else 2 ^ 63 - 1 <? number)%Z then Overflow
  else if decide (skip_spaces p = "") then Converted
  else Invalid.

(** [_try_int64]: the words in order, up to the first that fails. *)
Fixpoint try_int64 (col : list string) : conversion :=
  match col with
  | [] => Converted
  | word :: col' =>
      if is_na word then try_int64 col'
      else match str_to_int64 word with
           | Converted => try_int64 col'
           | failure => failure
           end
  end.

(** [uint_state] and [str_to_uint64] *)
Record uint_state : Type := UintState {
  seen_sint : bool;
  seen_uint : bool;
  seen_null : bool;
}.

Definition str_to_uint64 (state : uint_state) (word : string) : conversion * uint_state :=
  let p := skip_spaces word in
  match p with
  | String "-" _ => (Converted, UintState true (seen_uint state) (seen_null state))
  | _ =>
      let '(_, p) := skip_sign p in
      let '(number, num_digits, p) := digits p 0 0 in
      if (num_digits =? 0)%nat then (Invalid, state)
      else if (2 ^ 64 - 1 <? number)%Z then (Overflow, state)
      else if decide (skip_spaces p = "") then
        (Converted,
         if (2 ^ 63 - 1 <? number)%Z
         then UintState (seen_sint state) true (seen_null state)
         else state)
      else (Invalid, state)
  end.

Fixpoint scan_uint64 (col : list string) (state : uint_state) : conversion * uint_state :=
  match col with
  | [] => (Converted, state)
  | word :: col' =>
      if is_na word
      then scan_uint64 col' (UintState (seen_sint state) (seen_uint state) true)
      else match str_to_uint64 state word with
           | (Converted, state') => scan_uint64 col' state'
           | failure => failure
           end
  end.

(** [_try_uint64] *)
Definition try_uint64 (col : list string) : conversion :=
  match scan_uint64 col (UintState false false false) with
  | (Converted, state) =>
      if seen_uint state && (seen_null state || seen_sint state) then Conflict
      else if seen_sint state then Overflow
      else Converted
  | (failure, _) => failure
  end.

(** The words [xstrtod] reads to their end: a sign, digits with a decimal
    point among them, an exponent with at least one digit, with white space
    around; and the names of the infinities. *)
Definition xstrtod (word : string) : bool :=
  let '(_, p) := skip_sign (skip_spaces word) in
  let '(_, num_digits, p) := digits p 0 0 in
  let '(num_decimals, p) :=
    match p with
    | String "." p' => let '(_, n, p'') := digits p' 0 0 in (n, p'')
    | _ => (0, p)
    end in
  if (num_digits + num_decimals =? 0)%nat then false
  else
    let p :=
      match p with
      | EmptyString => p
      | String c p' =>
          if Ascii.eqb (tolower_ascii c) "e" then
            let '(_, q) := skip_sign p' in
            let '(_, n, q) := digits q 0 0 in
            if (n =? 0)%nat then p else q
          else p
      end in
    bool_decide (skip_spaces p = "").

Definition is_float (word : string) : bool :=
  xstrtod word
  || bool_decide (lower word ∈ ["inf"; "+inf"; "-inf"; "infinity"; "+infinity"; "-infinity"]).

(** [to_boolean] *)
Definition is_bool (word : string) : bool :=
  bool_decide (lower word ∈ ["true"; "false"]).

(** A column of numbers or booleans, and a column of type [object]: the
    text of its fields, with NaN for the missing values when they are
    filtered. *)
Definition numbers (col : list string) : list value := (fun _ => NotStr) <$> col.

Definition strings (na_filter : bool) (col : list string) : list value :=
  (fun word => if na_filter && is_na word then NotStr else Str word) <$> col.

Definition try_float64_bool (col : list string) : list value :=
  if forallb (fun word => is_na word || is_float word) col then numbers col
  else if forallb (fun word => is_na word || is_bool word) col then numbers col
  else strings true col.

(** [_convert_tokens] without a [dtype] given *)
Definition convert_tokens (col : list string) : list value :=
  match try_int64 col with
  | Converted => numbers col
  | Overflow =>
      match try_uint64 col with
      | Converted => numbers col
      | Invalid => try_float64_bool col
      | Overflow => strings true col
      | Conflict => strings false col
      end
  | _ => try_float64_bool col
  end.

#[global, refine] Instance reader : CsvReader := Build_CsvReader convert_tokens _ _.
Proof.
  - intros col. unfold convert_tokens, try_float64_bool, numbers, strings.
    repeat case_match; apply length_fmap.
  - assert (forall col i s, numbers col !! i = Some (Str s) -> col !! i = Some s) as Hn.
    { intros col i s. unfold numbers. rewrite list_lookup_fmap.
      destruct (col !! i); cbn; congruence. }
    assert (forall f col i s, strings f col !! i = Some (Str s) -> col !! i = Some s) as Hs.
    { intros f col i s. unfold strings. rewrite list_lookup_fmap.
      destruct (col !! i) as [word|]; cbn; [|done].
      destruct (f && is_na word); congruence. }
    intros col i s. unfold convert_tokens, try_float64_bool.
    repeat case_match; eauto.
Defined.

End Pandas.

(** ** The vocabulary of the specification *)

Open Scope list_scope.

(** The characters of a string, and the 64-character board string a FEN
    expands to ([None] when the FEN has no field at all). *)
Definition chars (s : string) : list ascii := list_ascii_of_string s.

Definition board_string_of (fen : string) : option string :=
  expand_placement <$> head (str_split fen).

(** A character of the fixed table, and its class. *)
Definition known (c : ascii) : Prop := is_Some (piece_dict c).
Definition class_of (c : ascii) : nat := default 0 (piece_dict c).

(** A block of 13 indicator slots with slot [k] set, the [i]-th block of a
    vector, and the sum of a vector. *)
Definition one_hot (k : nat) : list Z := <[k := 1%Z]> (replicate 13 0%Z).
Definition block (v : list Z) (i : nat) : list Z := take 13 (drop (13 * i) v).
Definition total (v : list Z) : Z := foldr Z.add 0%Z v.

Definition default_cols : list string := ["Position"; "Target"].

Section Vocabulary.
Context {E : RulesEngine} {R : CsvReader}.

(** The engine replays the legal move [m] of [b]: it accepts the identifier
    of [m], the position reached has a FEN the encoder accepts, and [pop]
    gives [b] back. *)
Definition replay_ok (b : board) (m : move) : bool :=
  match push_uci b (uci m) with
  | Ok b' =>
      is_Ok (fen_to_array (fen b'))
      && match pop b' with
         | Ok b'' => bool_decide (b'' = b)
         | Err _ => false
         end
  | Err _ => false
  end.

Definition expandable (b : board) : bool := forallb (replay_ok b) (legal_moves b).

(** The row [possible_moves] owes to the legal move [m] of [b] when the
    target is [t]. *)
Definition row_for (b : board) (t m : move) (r : candidate) : Prop :=
  exists b', push_uci b (uci m) = Ok b'
    /\ fen_to_array (fen b') = Ok (Position r)
    /\ Target r = if decide (m = t) then 1%Z else 0%Z.

(** The rows labelled 1.0. *)
Definition positives (rows : list candidate) : list candidate :=
  filter (fun r => Target r = 1%Z) rows.

(** The number of legal moves from the position of a record. *)
Definition legal_move_count (r : Cleaned.t) : nat :=
  match Board (Cleaned.FEN r) with
  | Ok b => length (legal_moves b)
  | Err _ => 0
  end.

(** The rows of a record, and of a run of records in order. *)
Definition expansion (r : Cleaned.t) : list candidate :=
  match possible_moves r with
  | Ok rows => rows
  | Err _ => []
  end.

Definition expand_all (rows : list Cleaned.t) : list candidate :=
  concat (map expansion rows).

(** The csv line of a row under the default columns. *)
Definition data_line (r : candidate) : csv_line :=
  Data [Cell_array (Position r); Cell_float (Target r)].

(** The rows of a csv file as [pd.read_csv] yields them, batch after batch
    of 100, and the rows [possible_moves] returns for them. *)
Definition read_rows (infile : list Cleaned.t) : list Row.t :=
  concat (read_csv infile 100).

Definition row_expansion (row : Row.t) : list candidate :=
  match possible_moves_row row with
  | Ok rows => rows
  | Err _ => []
  end.

Definition expand_rows (rows : list Row.t) : list candidate :=
  concat (map row_expansion rows).

(** A cell that is a [str] holds the text of its field. *)
Definition holds (v : value) (field : string) : Prop :=
  forall s, v = Str s -> field = s.

Definition row_of (row : Row.t) (r : Cleaned.t) : Prop :=
  holds (Row.FEN row) (Cleaned.FEN r)
  /\ holds (Row.target_move row) (Cleaned.target_move r).

End Vocabulary.

(** The positions of the examples: the initial position, the position
    after 1. e4, the position after 1. e4 e5, and a position in which White
    is checkmated. *)
Definition STARTING_FEN : string :=
  "rnbqkbnr/pppppppp/8/8/8/8/PPPPPPPP/RNBQKBNR w KQkq - 0 1".
Definition advanced_fen : string :=
  "rnbqkbnr/pppppppp/8/8/4P3/8/PPPP1PPP/RNBQKBNR b KQkq - 0 1".
Definition solved_fen : string :=
  "rnbqkbnr/pppp1ppp/8/4p3/4P3/8/PPPP1PPP/RNBQKBNR w KQkq - 0 2".
Definition mated_fen : string :=
  "rnb1kbnr/pppp1ppp/8/4p3/6Pq/5P2/PPPPP2P/RNBQKBNR w KQkq - 1 3".

(** A csv file of 101 records: two batches. *)
Definition two_batches : list Cleaned.t :=
  replicate 100 (Cleaned.Build mated_fen "e2e4") ++ [Cleaned.Build advanced_fen "e7e5"].

(** The placement field with its rank separators removed. *)
Definition without_slashes (placement : string) : list ascii :=
  filter (fun c => c <> "/"%char) (chars placement).

(** The number of blocks of a vector whose slot [k] is set. *)
Definition class_count (k : nat) (v : list Z) : Z :=
  total (map (fun i => default 0%Z (v !! (13 * i + k))) (seq 0 64)).

(** The character of a class: [piece_dict] read backwards. *)
Definition symbol_of_class (k : nat) : ascii :=
  nth k (chars "0PNBRQKpnbrqk") "0"%char.

(** A character the expansion copies and that is no separator. *)
Definition plain (c : ascii) : Prop :=
  addon c = String c EmptyString /\ c <> "/"%char.

(** The cell of a row in the column [name], and the csv line of a row
    under the columns [cols]. *)
Definition cell_of (r : candidate) (name : string) : cell :=
  if decide (name = "Position") then Cell_array (Position r) else Cell_float (Target r).

Definition project (cols : list string) (r : candidate) : csv_line :=
  Data (map (cell_of r) cols).

(** ** The strategies and the players *)

(** [board.push(move)] for a move whose from-square holds a piece of the
    board, as every legal move has, and for the null move: python-chess
    checks nothing else, and asserts that much. *)
Class PushEngine (E : RulesEngine) : Type := {
  push : board -> move -> board;
}.

#[global] Instance pychess_push : PushEngine PyChess.engine := {|
  push := PyChess.push;
|}.

Section PushUci.
Context {E : RulesEngine} {P : PushEngine E}.
(** [not move], true of the null move only, and the move [parse_uci]
    checks in place of the one it parsed,
    [_from_chess960(_to_chess960(move))], which spells castling as the king
    moving two squares. *)
Variable is_null : move -> bool.
Variable normalize : board -> move -> move.


End PushUci.


(** [chess.engine.PlayResult(move, ponder)] *)
Record PlayResult {E : RulesEngine} : Type := MkPlayResult {
  played : move;
  ponder : option move;
}.
Arguments MkPlayResult {E} played ponder.

(** [l.sort(key=key)] with keys that are strings: the sort is stable and
    orders strings by code points. *)
Fixpoint insert_by {A} (key : A -> string) (x : A) (l : list A) : list A :=
  match l with
  | [] => [x]
  | y :: l' =>
      if String.leb (key x) (key y) then x :: l else y :: insert_by key x l'
  end.

Definition list_sort {A} (key : A -> string) (l : list A) : list A :=
  foldr (insert_by key) [] l.

(** [a.reshape(8, 8, 13)] of a vector of 832 cells, which is what
    [fen_to_array] returns: 8 rows of 8 squares of 13 slots. *)
Fixpoint rows_of {A} (width count : nat) (a : list A) : list (list A) :=
  match count with
  | O => []
  | S count' => take width a :: rows_of width count' (drop width a)
  end.

Definition reshape_8_8_13 (a : list Z) : list (list (list Z)) :=
  rows_of 8 8 (rows_of 13 64 a).

(** A trained network as the players use it: [np.argmax(model.predict(fens))]
    on a batch of 8 x 8 x 13 arrays. *)
Definition network : Type := list (list (list (list Z))) -> result nat.

Section Strategies.
Context {E : RulesEngine} {P : PushEngine E}.
(** [board.san(move)] and [board.push_san(san)] of python-chess. *)
Variable san : board -> move -> string.
Variable push_san : board -> string -> result board.

(** [FirstMove.search]; [str(move)] is [move.uci()]. *)
Definition FirstMove_search (b : board) : result PlayResult :=
  let moves := legal_moves b in
  let moves := list_sort uci moves in
  m ← list_getitem moves 0;
  Ok (MkPlayResult m None).

(** [Alphabetical.search] *)
Definition Alphabetical_search (b : board) : result PlayResult :=
  let moves := legal_moves b in
  let moves := list_sort (san b) moves in
  m ← list_getitem moves 0;
  Ok (MkPlayResult m None).

(** One turn of [for move in options]: the state is the board and [fens]. *)
Definition scan_move (st : board * list string) (m : move)
  : result (board * list string) :=
  let '(b, fens) := st in
  let b := push b m in
  let fens := fens ++ [fen b] in
  b ← pop b;
  Ok (b, fens).

(** The batch the network is given for the board [b]:
    [np.array([fen_to_array(fen).reshape(8,8,13) for fen in fens])],
    and the board after the loop that collects [fens]. *)
Definition model_input (b : board) : result (board * list (list (list (list Z)))) :=
  let options := legal_moves b in
  st ← for_each scan_move options (b, []);
  fens ← map_each (fun f => a ← fen_to_array f; Ok (reshape_8_8_13 a)) st.2;
  Ok (st.1, fens).

(** [PuzzledBot.search] of strategies.py, with the network it loads: the
    result and the board it leaves. *)
Definition PuzzledBot_search (model : network) (b : board)
  : result (PlayResult * board) :=
  let options := legal_moves b in
  st ← model_input b;
  i ← model st.2;
  best_move ← list_getitem options i;
  let b := push st.1 best_move in
  Ok (MkPlayResult best_move None, b).

End Strategies.

(** [Player] of player.py: its network and its board. *)
Module Player.
Section Player.
Context {E : RulesEngine} {P : PushEngine E}.
(** [board.push_san(san)] of python-chess. *)
Variable push_san : board -> string -> result board.
Local Abbreviation chess_Board := (@board E).

Record t : Type := Build { model : network; board : chess_Board }.

(** [Player(model, start_fen)] with the network [model] loaded: it sets the
    position and shows the board. *)
Definition init (model : network) (start_fen : string) : result t :=
  b ← Board start_fen;
  Ok (Build model b).

Definition set_position (self : t) (fen : string) : result t :=
  b ← Board fen;
  Ok (Build (model self) b).

Definition show_board (self : t) : chess_Board := board self.

(** [play_move]: the move played and the player afterwards. *)
Definition play_move (self : t) : result (move * t) :=
  let options := legal_moves (board self) in
  st ← model_input (board self);
  i ← model self st.2;
  best_move ← list_getitem options i;
  let self := Build (model self) (push st.1 best_move) in
  Ok (best_move, self).

(** [op_move]: the opponent's move is a [chess.Move] or a string in
    standard algebraic notation. *)
Definition op_move (self : t) (mv : move + string) : result t :=
  match mv with
  | inl m => Ok (Build (model self) (push (board self) m))
  | inr s => b ← push_san (board self) s; Ok (Build (model self) b)
  end.

End Player.
End Player.

(** [Single_Game] of player.py.  Its two entries [players['white']] and
    [players['black']] are references: to two [Player] objects, or twice to
    one.  The facts about the game are about two objects: with one,
    [op_move] pushes the move on the board [play_move] has just played it
    on, which [push] of python-chess refuses by its assertion. *)
Module Single_Game.
Section Single_Game.
Context {E : RulesEngine} {P : PushEngine E}.
Variable push_san : board -> string -> result board.
Local Abbreviation chess_Board := (@board E).

Inductive side : Type := white | black.

Inductive players : Type :=
  | Distinct (w b : Player.t)
  | Shared (p : Player.t).

Definition get (ps : players) (s : side) : Player.t :=
  match ps, s with
  | Distinct w _, white => w
  | Distinct _ b, black => b
  | Shared p, _ => p
  end.

(** A method that mutates the player a side refers to. *)
Definition set (ps : players) (s : side) (p : Player.t) : players :=
  match ps, s with
  | Distinct _ b, white => Distinct p b
  | Distinct w _, black => Distinct w p
  | Shared _, _ => Shared p
  end.

Record t : Type := Build {
  the_players : players;
  active_player : side;
  passive_player : side;
  game_board : chess_Board;
  names : option (string * string);
}.

(** [switcher[i]] for [switcher = ('white', 'black')] and [i] below 2. *)
Definition switcher (i : nat) : side :=
  match i with
  | O => white
  | _ => black
  end.

(** [Single_Game(white, black, player_names)] *)
Definition init (ps : players) (player_names : option (string * string)) : result t :=
  game_board ← Board STARTING_FEN;
  w ← Player.set_position (get ps white) (fen game_board);
  let ps := set ps white w in
  b ← Player.set_position (get ps black) (fen game_board);
  let ps := set ps black b in
  Ok (Build ps white black game_board player_names).

(** One turn of the loop of [play]: the game and [ply_num] afterwards. *)
Definition turn (self : t) (ply_num : nat) : result (t * nat) :=
  let next_passive := ply_num mod 2 in
  let ps := the_players self in
  r ← Player.play_move (get ps (active_player self));
  let '(m, p) := r in
  let ps := set ps (active_player self) p in
  let game_board := push (game_board self) m in
  p' ← Player.op_move push_san (get ps (passive_player self)) (inl m);
  let ps := set ps (passive_player self) p' in
  let ply_num := ply_num + 1 in
  Ok (Build ps (switcher (ply_num mod 2)) (switcher next_passive) game_board
            (names self),
      ply_num).

(** [n] turns in a row. *)
Fixpoint turns (n : nat) (self : t) (ply_num : nat) : result (t * nat) :=
  match n with
  | O => Ok (self, ply_num)
  | S n' => st ← turn self ply_num; turns n' st.1 st.2
  end.

End Single_Game.
End Single_Game.

Section PlayVocabulary.
Context {E : RulesEngine} {P : PushEngine E}.

(** The engine takes back every legal move of [b] it is made to play, and
    the position after each has a FEN the encoder accepts. *)
Definition scannable (b : board) : bool :=
  forallb (fun m =>
             is_Ok (fen_to_array (fen (push b m)))
             && match pop (push b m) with
                | Ok b' => bool_decide (b' = b)
                | Err _ => false
                end)
          (legal_moves b).

(** [push_uci] of the identifier of a legal move of [b] plays that move. *)
Definition pushes_agree (b : board) : bool :=
  forallb (fun m =>
             match push_uci b (uci m) with
             | Ok b' => bool_decide (b' = push b m)
             | Err _ => false
             end)
          (legal_moves b).

(** The array the network is given for the legal move [m] of [b]. *)
Definition input_for (b : board) (m : move) (x : list (list (list Z))) : Prop :=
  exists a, fen_to_array (fen (push b m)) = Ok a /\ x = reshape_8_8_13 a.
End PlayVocabulary.

Section GameVocabulary.
Context {E : RulesEngine} {P : PushEngine E}.

(** The game is in step at [ply_num]: its two players are two objects
    whose boards are equal, and the sides to move and to wait are those of
    the parity of [ply_num]. *)
Definition in_step (g : Single_Game.t) (ply_num : nat) : Prop :=
  exists w b,
    Single_Game.the_players g = Single_Game.Distinct w b
    /\ Player.board w = Player.board b
    /\ Single_Game.active_player g = Single_Game.switcher (ply_num mod 2)
    /\ Single_Game.passive_player g = Single_Game.switcher ((ply_num + 1) mod 2).
End GameVocabulary.

Definition first_option : network := fun _ => Ok 0.
Definition no_push_san (b : @board PyChess.engine) (s : string)
  : result (@board PyChess.engine) :=
  Err InvalidMoveError.

(** A game between two players, and a game in which one player object
    sits on both sides. *)
Definition example_white : result Player.t :=
  Player.init (E := PyChess.engine) first_option mated_fen.
Definition example_black : result Player.t :=
  Player.init (E := PyChess.engine) first_option advanced_fen.

(** ** The board encoder *)

Lemma get_chars s i : String.get i s = chars s !! i.
Proof.
  revert i. induction s as [|c s IH]; intros [|i]; simpl; auto.
Qed.

Lemma length_chars s : length (chars s) = String.length s.
Proof. induction s; simpl; auto. Qed.

Lemma piece_dict_lt c k : piece_dict c = Some k -> k < 13.
Proof.
  destruct c as [[] [] [] [] [] [] [] []]; simpl; intros H; inversion H; lia.
Qed.

Lemma one_hot_length k : length (one_hot k) = 13.
Proof. unfold one_hot. rewrite length_insert, length_replicate. done. Qed.

Lemma one_hot_lookup k j :
  k < 13 -> j < 13 -> one_hot k !! j = Some (if decide (j = k) then 1 else 0)%Z.
Proof.
  intros Hk Hj. unfold one_hot. case_decide as Hjk.
  - subst. apply list_lookup_insert_eq. rewrite length_replicate. lia.
  - rewrite list_lookup_insert_ne by congruence. by apply lookup_replicate_2.
Qed.

Lemma one_hot_total k : k < 13 -> total (one_hot k) = 1%Z.
Proof.
  intros Hk. do 13 (destruct k as [|k]; [reflexivity|]). lia.
Qed.

(** One turn of the marking loop on a known and on an unknown character. *)
Lemma mark_square_known bs A k n c cls :
  length A = 13 * k ->
  chars bs !! k = Some c -> piece_dict c = Some cls ->
  mark_square bs (A ++ replicate (13 * S n) 0%Z) k
  = Ok ((A ++ one_hot cls) ++ replicate (13 * n) 0%Z).
Proof.
  intros HA Hc Hcls. unfold mark_square, str_getitem, dict_getitem.
  rewrite get_chars, Hc. cbn [mbind result_bind]. rewrite Hcls. cbn [mbind result_bind].
  pose proof (piece_dict_lt _ _ Hcls) as Hlt.
  unfold np_setitem. rewrite length_app, length_replicate.
  case_decide; [|lia].
  f_equal. rewrite insert_app_r_alt by lia.
  replace (13 * k + cls - length A) with cls by lia.
  replace (13 * S n) with (13 + 13 * n) by lia.
  rewrite replicate_add.
  rewrite insert_app_l by (rewrite length_replicate; lia).
  unfold one_hot. by rewrite <- !(assoc_L (++)).
Qed.

Lemma mark_square_unknown bs A k c :
  chars bs !! k = Some c -> piece_dict c = None ->
  mark_square bs A k = Err (KeyError c).
Proof.
  intros Hc Hn. unfold mark_square, str_getitem, dict_getitem.
  rewrite get_chars, Hc. cbn [mbind result_bind]. by rewrite Hn.
Qed.

Lemma mark_squares_known bs n : forall k A,
  length A = 13 * k ->
  k + n <= length (chars bs) ->
  Forall known (take n (drop k (chars bs))) ->
  for_each (mark_square bs) (seq k n) (A ++ replicate (13 * n) 0%Z)
  = Ok (A ++ concat (map (fun c => one_hot (class_of c)) (take n (drop k (chars bs))))).
Proof.
  induction n as [|n IH]; intros k A HA Hlen Hall.
  - by rewrite take_0.
  - destruct (lookup_lt_is_Some_2 (chars bs) k ltac:(lia)) as [c Hc].
    rewrite (drop_S _ _ _ Hc) in *. rewrite firstn_cons in *.
    apply Forall_cons in Hall as [[cls Hcls] Hall].
    cbn [seq for_each]. rewrite (mark_square_known _ _ _ _ _ _ HA Hc Hcls).
    change (Ok ?x ≫= ?f) with (f x). cbv beta.
    rewrite IH; [|rewrite length_app, one_hot_length; lia|lia|done].
    cbn [map concat]. unfold class_of at 2. rewrite Hcls. simpl.
    by rewrite <- (assoc_L (++)).
Qed.

Lemma mark_squares_unknown bs n : forall k A,
  length A = 13 * k ->
  k + n <= length (chars bs) ->
  Exists (fun c => piece_dict c = None) (take n (drop k (chars bs))) ->
  exists c, c ∈ chars bs /\ piece_dict c = None /\
    for_each (mark_square bs) (seq k n) (A ++ replicate (13 * n) 0%Z) = Err (KeyError c).
Proof.
  induction n as [|n IH]; intros k A HA Hlen Hex.
  - rewrite take_0 in Hex. by apply Exists_nil in Hex.
  - destruct (lookup_lt_is_Some_2 (chars bs) k ltac:(lia)) as [c Hc].
    rewrite (drop_S _ _ _ Hc), firstn_cons in Hex.
    cbn [seq for_each].
    destruct (piece_dict c) as [cls|] eqn:Hcls.
    + apply Exists_cons in Hex as [Hex|Hex]; [congruence|].
      rewrite (mark_square_known _ _ _ _ _ _ HA Hc Hcls).
      change (Ok ?x ≫= ?f) with (f x). cbv beta.
      apply IH; [rewrite length_app, one_hot_length; lia|lia|done].
    + exists c. split; [by eapply list_elem_of_lookup_2|]. split; [done|].
      by rewrite (mark_square_unknown _ _ _ _ Hc Hcls).
Qed.

(** Vectors made of blocks of 13. *)
Lemma concat_blocks_length (bl : list (list Z)) :
  Forall (fun l => length l = 13) bl -> length (concat bl) = 13 * length bl.
Proof.
  induction 1 as [|l bl' Hl _ IH]; [done|].
  cbn [concat]. rewrite length_app, IH, Hl. cbn [length]. lia.
Qed.

Lemma concat_blocks_drop (bl : list (list Z)) i l :
  Forall (fun l => length l = 13) bl ->
  bl !! i = Some l -> exists rest, drop (13 * i) (concat bl) = l ++ rest.
Proof.
  intros Hbl. revert i. induction Hbl as [|l' bl' Hl _ IH]; intros i Hi; [done|].
  destruct i as [|i].
  - injection Hi as ->. exists (concat bl'). done.
  - destruct (IH i Hi) as [rest Hrest]. exists rest.
    cbn [concat]. rewrite drop_app_ge by lia.
    replace (13 * S i - length l') with (13 * i) by lia. done.
Qed.

Lemma concat_blocks_lookup (bl : list (list Z)) i l j :
  Forall (fun l => length l = 13) bl ->
  bl !! i = Some l -> j < 13 -> concat bl !! (13 * i + j) = l !! j.
Proof.
  intros Hbl Hi Hj. destruct (concat_blocks_drop bl i l Hbl Hi) as [rest Hrest].
  assert (length l = 13) as Hl by apply (Forall_lookup_1 _ _ _ _ Hbl Hi).
  rewrite <- lookup_drop, Hrest. apply lookup_app_l. lia.
Qed.

Lemma concat_blocks_block (bl : list (list Z)) i l :
  Forall (fun l => length l = 13) bl ->
  bl !! i = Some l -> block (concat bl) i = l.
Proof.
  intros Hbl Hi. destruct (concat_blocks_drop bl i l Hbl Hi) as [rest Hrest].
  assert (length l = 13) as Hl by apply (Forall_lookup_1 _ _ _ _ Hbl Hi).
  unfold block. rewrite Hrest, take_app_length'; done.
Qed.

Lemma total_app u v : total (u ++ v) = (total u + total v)%Z.
Proof.
  unfold total. induction u as [|x u IH]; [done|].
  cbn [app foldr]. rewrite IH. lia.
Qed.

Lemma total_concat_ones bl :
  Forall (fun l => total l = 1%Z) bl -> total (concat bl) = Z.of_nat (length bl).
Proof.
  induction 1 as [|l bl' Hl _ IH]; [done|].
  cbn [concat length]. rewrite total_app, Hl, IH. lia.
Qed.

Lemma fen_to_array_board_string fen bs :
  board_string_of fen = Some bs ->
  fen_to_array fen =
    if negb (String.length bs =? 64)%nat
    then Err (ValueError_board_string (String.length bs))
    else for_each (mark_square bs) (seq 0 64) (np_zeros 832).
Proof.
  unfold board_string_of, fen_to_array, list_getitem. rewrite <- head_lookup.
  destruct (head (str_split fen)) as [placement|]; [|done].
  intros [= <-]. done.
Qed.

Lemma fen_to_array_known fen bs :
  board_string_of fen = Some bs ->
  String.length bs = 64 ->
  Forall known (chars bs) ->
  fen_to_array fen = Ok (concat (map (fun c => one_hot (class_of c)) (chars bs))).
Proof.
  intros Hbs Hlen Hall. rewrite (fen_to_array_board_string _ _ Hbs), Hlen.
  cbn [Nat.eqb negb]. rewrite <- length_chars in Hlen.
  pose proof (mark_squares_known bs 64 0 [] eq_refl ltac:(lia)) as H.
  rewrite drop_0, take_ge in H by lia. exact (H Hall).
Qed.

(** The marking loop either fills every block or stops at an unknown
    character. *)
Lemma mark_squares_outcome bs :
  String.length bs = 64 ->
  (Forall known (chars bs) /\
     for_each (mark_square bs) (seq 0 64) (np_zeros 832)
     = Ok (concat (map (fun c => one_hot (class_of c)) (chars bs))))
  \/ (exists c, c ∈ chars bs /\ piece_dict c = None /\
        for_each (mark_square bs) (seq 0 64) (np_zeros 832) = Err (KeyError c)).
Proof.
  intros Hlen. rewrite <- length_chars in Hlen.
  destruct (decide (Forall known (chars bs))) as [Hall|Hex].
  - left. split; [done|].
    pose proof (mark_squares_known bs 64 0 [] eq_refl ltac:(lia)) as H.
    rewrite drop_0, take_ge in H by lia. exact (H Hall).
  - right. apply not_Forall_Exists in Hex; [|apply _].
    pose proof (mark_squares_unknown bs 64 0 [] eq_refl ltac:(lia)) as H.
    rewrite drop_0, take_ge in H by lia. apply H.
    eapply Exists_impl; [apply Hex|]. intros c Hc. cbn in Hc.
    unfold known in Hc. destruct (piece_dict c); [|done].
    exfalso. apply Hc. by eexists.
Qed.

(** C2.  For every FEN whose placement field expands to exactly 64
    characters of the fixed table, [fen_to_array] returns a vector of 832
    cells in which, for each of the 64 squares [i], the slot [13 * i + k]
    of the class [k] of the [i]-th character is 1 and the other twelve
    slots of the block are 0; every block of 13 sums to 1 and the vector
    sums to 64. *)
Theorem fen_to_array_one_hot fen bs :
  board_string_of fen = Some bs ->
  String.length bs = 64 ->
  Forall known (chars bs) ->
  exists v,
    fen_to_array fen = Ok v /\
    length v = 832 /\
    (forall i, i < 64 ->
       exists c k, String.get i bs = Some c /\ piece_dict c = Some k /\ k < 13 /\
         forall j, j < 13 ->
           v !! (13 * i + j) = Some (if decide (j = k) then 1 else 0)%Z) /\
    (forall i, i < 64 -> total (block v i) = 1%Z) /\
    total v = 64%Z.
Proof.
  intros Hbs Hlen Hall. eexists. split; [by apply fen_to_array_known|].
  set (bl := map (fun c => one_hot (class_of c)) (chars bs)).
  assert (length bl = 64) as Hn by (unfold bl; rewrite length_map, length_chars; done).
  assert (Forall (fun l => length l = 13) bl) as Hbl.
  { unfold bl. apply Forall_map, Forall_forall. intros c _. apply one_hot_length. }
  assert (forall i, i < 64 -> exists c k,
            chars bs !! i = Some c /\ piece_dict c = Some k /\ k < 13 /\
            bl !! i = Some (one_hot k)) as Hsq.
  { intros i Hi.
    destruct (lookup_lt_is_Some_2 (chars bs) i) as [c Hc]; [rewrite length_chars; lia|].
    destruct (Forall_lookup_1 _ _ _ _ Hall Hc) as [k Hk].
    exists c, k. repeat split; [done..|by eapply piece_dict_lt|].
    unfold bl. rewrite list_lookup_fmap, Hc. cbn. unfold class_of. by rewrite Hk. }
  split; [rewrite concat_blocks_length by done; lia|].
  split; [|split].
  - intros i Hi. destruct (Hsq i Hi) as (c & k & Hc & Hk & Hlt & Hb).
    exists c, k. rewrite get_chars. repeat split; [done..|].
    intros j Hj. rewrite (concat_blocks_lookup bl i _ j Hbl Hb Hj).
    by apply one_hot_lookup.
  - intros i Hi. destruct (Hsq i Hi) as (c & k & Hc & Hk & Hlt & Hb).
    rewrite (concat_blocks_block bl i _ Hbl Hb). by apply one_hot_total.
  - rewrite total_concat_ones, Hn; [done|].
    apply Forall_lookup_2. intros i l Hl.
    destruct (Hsq i) as (c & k & Hc & Hk & Hlt & Hb).
    { apply lookup_lt_Some in Hl. lia. }
    rewrite Hb in Hl. injection Hl as <-. by apply one_hot_total.
Qed.

Lemma fen_to_array_one_hot_witness :
  let bs := "rnbqkbnrpppppppp00000000000000000000000000000000PPPPPPPPRNBQKBNR" in
  exists v,
    fen_to_array STARTING_FEN = Ok v /\
    length v = 832 /\
    (forall i, i < 64 ->
       exists c k, String.get i bs = Some c /\ piece_dict c = Some k /\ k < 13 /\
         forall j, j < 13 ->
           v !! (13 * i + j) = Some (if decide (j = k) then 1 else 0)%Z) /\
    (forall i, i < 64 -> total (block v i) = 1%Z) /\
    total v = 64%Z.
Proof.
  apply (fen_to_array_one_hot STARTING_FEN).
  - reflexivity.
  - reflexivity.
  - apply (bool_decide_unpack _). vm_compute. exact I.
Defined.

(** C3.  For every FEN whose placement field expands to exactly 64
    characters, one of which is outside the fixed table, [fen_to_array]
    fails with the [KeyError] of such a character (InvalidPieceSymbol), and
    returns no vector: no character outside the table is given a class. *)
Theorem fen_to_array_invalid_symbol fen bs :
  board_string_of fen = Some bs ->
  String.length bs = 64 ->
  Exists (fun c => piece_dict c = None) (chars bs) ->
  (exists c, c ∈ chars bs /\ piece_dict c = None /\ fen_to_array fen = Err (KeyError c))
  /\ (forall v, fen_to_array fen <> Ok v).
Proof.
  intros Hbs Hlen Hex.
  assert (exists c, c ∈ chars bs /\ piece_dict c = None /\
                    fen_to_array fen = Err (KeyError c)) as H.
  { rewrite (fen_to_array_board_string _ _ Hbs), Hlen. cbn [Nat.eqb negb].
    destruct (mark_squares_outcome bs Hlen) as [[Hall _]|H]; [|done].
    exfalso. apply Exists_exists in Hex as (c & Hc & Hnone).
    rewrite Forall_forall in Hall. destruct (Hall c Hc) as [k Hk]. congruence. }
  split; [done|]. destruct H as (c & _ & _ & ->). done.
Qed.

Lemma fen_to_array_invalid_symbol_witness :
  let fen := "rnbqkbnr/pppppppp/8/8/3x4/8/PPPPPPPP/RNBQKBNR w KQkq - 0 1" in
  let bs := "rnbqkbnrpppppppp0000000000000000000x000000000000PPPPPPPPRNBQKBNR" in
  (exists c, c ∈ chars bs /\ piece_dict c = None /\ fen_to_array fen = Err (KeyError c))
  /\ (forall v, fen_to_array fen <> Ok v).
Proof.
  apply fen_to_array_invalid_symbol.
  - reflexivity.
  - reflexivity.
  - apply (bool_decide_unpack _). vm_compute. exact I.
Defined.

(** C7.  For every FEN whose placement field expands to a string of a
    length other than 64, [fen_to_array] fails with the [ValueError] of its
    length check (InvalidBoardLength); when the field expands to exactly 64
    characters, that error is not raised. *)
Theorem fen_to_array_board_length fen bs :
  board_string_of fen = Some bs ->
  (String.length bs <> 64 ->
     fen_to_array fen = Err (ValueError_board_string (String.length bs)))
  /\ (String.length bs = 64 ->
        forall n, fen_to_array fen <> Err (ValueError_board_string n)).
Proof.
  intros Hbs. rewrite (fen_to_array_board_string _ _ Hbs). split.
  - intros Hne. apply Nat.eqb_neq in Hne. by rewrite Hne.
  - intros Hlen n. rewrite Hlen. cbn [Nat.eqb negb].
    destruct (mark_squares_outcome bs Hlen) as [[_ ->]|(c & _ & _ & ->)]; done.
Qed.

Lemma fen_to_array_board_length_witness :
  fen_to_array "rnbqkbnr/pppppppp/8/8/8/81/PPPPPPPP/RNBQKBNR w KQkq - 0 1"
  = Err (ValueError_board_string 65)
  /\ forall n, fen_to_array STARTING_FEN <> Err (ValueError_board_string n).
Proof.
  split.
  - apply (fen_to_array_board_length
             "rnbqkbnr/pppppppp/8/8/8/81/PPPPPPPP/RNBQKBNR w KQkq - 0 1"
             "rnbqkbnrpppppppp000000000000000000000000000000000PPPPPPPPRNBQKBNR");
      [reflexivity|vm_compute; lia].
  - apply (fen_to_array_board_length STARTING_FEN
             "rnbqkbnrpppppppp00000000000000000000000000000000PPPPPPPPRNBQKBNR");
      reflexivity.
Defined.

(** C5.  Two FEN strings with the same first whitespace-delimited token
    are encoded alike, whatever their other fields. *)
Theorem fen_to_array_placement_only fen1 fen2 :
  head (str_split fen1) = head (str_split fen2) ->
  fen_to_array fen1 = fen_to_array fen2.
Proof.
  intros H. unfold fen_to_array, list_getitem.
  rewrite <- !head_lookup, H. done.
Qed.

Lemma fen_to_array_placement_only_witness :
  fen_to_array advanced_fen
  = fen_to_array "rnbqkbnr/pppppppp/8/8/4P3/8/PPPP1PPP/RNBQKBNR w - e3 7 30".
Proof. apply fen_to_array_placement_only. vm_compute. reflexivity. Defined.

(** ** The move expander and the puzzle advancer *)

Section PipelineFacts.
Context {E : RulesEngine}.

Lemma replay_ok_inv b m :
  replay_ok b m = true ->
  exists b' v, push_uci b (uci m) = Ok b' /\ fen_to_array (fen b') = Ok v /\ pop b' = Ok b.
Proof.
  unfold replay_ok. destruct (push_uci b (uci m)) as [b'|]; [|done].
  destruct (fen_to_array (fen b')) as [v|] eqn:Hv; [|done].
  destruct (pop b') as [b''|] eqn:Hpop; [|done]. cbn.
  intros Heq. apply bool_decide_eq_true_1 in Heq. subst b''. by exists b', v.
Qed.

Lemma try_moves_ok target t b ms :
  from_uci target = Ok t ->
  Forall (fun m => replay_ok b m = true) ms ->
  forall acc, exists rows,
    for_each (try_move target) ms (b, acc) = Ok (b, acc ++ rows)
    /\ Forall2 (row_for b t) ms rows.
Proof.
  intros Ht. induction 1 as [|m ms Hm _ IH]; intros acc.
  - exists []. by rewrite app_nil_r.
  - destruct (replay_ok_inv _ _ Hm) as (b' & v & Hpush & Hv & Hpop).
    destruct (IH (acc ++ [Candidate v (if decide (m = t) then 1%Z else 0%Z)]))
      as (rows & Hrows & Hall).
    eexists (_ :: rows). split.
    + cbn [for_each try_move]. rewrite Hpush. cbn [mbind result_bind].
      rewrite Ht. cbn [mbind result_bind]. rewrite Hv. cbn [mbind result_bind].
      rewrite Hpop. cbn [mbind result_bind]. rewrite Hrows.
      by rewrite <- (assoc_L (++)).
    + constructor; [|done]. exists b'. done.
Qed.

Lemma try_moves_length target ms : forall st st',
  for_each (try_move target) ms st = Ok st' ->
  length st'.2 = length st.2 + length ms.
Proof.
  induction ms as [|m ms IH]; intros [b acc] st' H.
  - injection H as <-. cbn. lia.
  - cbn [for_each] in H.
    destruct (try_move target (b, acc) m) as [[b2 acc2]|] eqn:Hstep; [|done].
    cbn [mbind result_bind] in H. apply IH in H. rewrite H.
    unfold try_move in Hstep.
    destruct (push_uci b (uci m)) as [b1|]; [|done]. cbn [mbind result_bind] in Hstep.
    destruct (from_uci target) as [t|]; [|done]. cbn [mbind result_bind] in Hstep.
    destruct (fen_to_array (fen b1)) as [a|]; [|done]. cbn [mbind result_bind] in Hstep.
    destruct (pop b1) as [b2'|]; [|done]. cbn [mbind result_bind] in Hstep.
    injection Hstep as <- <-. cbn. rewrite length_app. cbn. lia.
Qed.

Lemma possible_moves_length r rows :
  possible_moves r = Ok rows -> length rows = legal_move_count r.
Proof.
  unfold possible_moves, legal_move_count.
  destruct (Board (Cleaned.FEN r)) as [b|]; [|done]. cbn [mbind result_bind].
  destruct (for_each _ _ _) as [st|] eqn:Hloop; [|done]. cbn [mbind result_bind].
  intros [= <-]. by apply try_moves_length in Hloop.
Qed.

Lemma positives_count t b ms rows :
  Forall2 (row_for b t) ms rows ->
  NoDup ms ->
  length (positives rows) = if decide (t ∈ ms) then 1 else 0.
Proof.
  unfold positives.
  induction 1 as [|m r ms rows (b' & _ & _ & Hr) _ IH]; intros Hnd; [done|].
  apply NoDup_cons in Hnd as [Hm Hnd]. rewrite filter_cons, Hr.
  destruct (decide (m = t)) as [->|Hne].
  - rewrite decide_True by done. cbn [length]. rewrite (IH Hnd).
    rewrite decide_False by done. rewrite decide_True by left. done.
  - rewrite decide_False by done. rewrite (IH Hnd).
    destruct (decide (t ∈ ms)).
    + rewrite decide_True by by right. done.
    + rewrite decide_False; [done|]. intros [->|?]%elem_of_cons; done.
Qed.

(** C1.  For every advanced position and every target that is one of its
    legal moves, [possible_moves] returns one row per legal move, in the
    order of the moves; the row of a move is labelled 1.0 exactly when the
    move equals the parsed target (equality of moves, not of strings), so
    exactly one row is labelled 1.0 and every other row 0.0.  The engine is
    assumed to enumerate no move twice and to replay each of its moves. *)
Theorem possible_moves_one_positive start_fen target b t :
  Board start_fen = Ok b ->
  from_uci target = Ok t ->
  t ∈ legal_moves b ->
  NoDup (legal_moves b) ->
  expandable b = true ->
  exists rows,
    possible_moves (Cleaned.Build start_fen target) = Ok rows
    /\ length rows = length (legal_moves b)
    /\ Forall2 (row_for b t) (legal_moves b) rows
    /\ length (positives rows) = 1
    /\ Forall (fun r => Target r = 1%Z \/ Target r = 0%Z) rows.
Proof.
  intros Hb Ht Hin Hnd Hexp.
  unfold expandable in Hexp. rewrite forallb_forall in Hexp.
  destruct (try_moves_ok target t b (legal_moves b) Ht) with (acc := @nil candidate)
    as (rows & Hloop & Hrows).
  { apply Forall_forall. intros m Hm. apply Hexp. by apply list_elem_of_In. }
  exists rows. split; [|split; [|split; [|split]]].
  - unfold possible_moves. cbn [Cleaned.FEN Cleaned.target_move].
    rewrite Hb. cbn [mbind result_bind]. rewrite Hloop. done.
  - symmetry. by eapply Forall2_length.
  - done.
  - rewrite (positives_count _ _ _ _ Hrows Hnd). by rewrite decide_True.
  - clear -Hrows. induction Hrows as [|m r ms rows (b' & _ & _ & Hr) _ IH]; [done|].
    constructor; [|done]. rewrite Hr. case_decide; auto.
Qed.

(** C9.  For every advanced position without a legal move,
    [possible_moves] returns the empty frame and raises nothing, whatever
    the target. *)
Theorem possible_moves_terminal start_fen target b :
  Board start_fen = Ok b ->
  legal_moves b = [] ->
  possible_moves (Cleaned.Build start_fen target) = Ok [].
Proof.
  intros Hb Hnone. unfold possible_moves. cbn [Cleaned.FEN Cleaned.target_move].
  rewrite Hb. cbn [mbind result_bind]. rewrite Hnone. done.
Qed.

(** C10.  For every advanced position with a legal move and every target
    the engine cannot parse, [possible_moves] raises an error and returns
    no rows; when the engine accepts the first move it enumerated, the error
    is the one the parse of the target raised. *)
Theorem possible_moves_malformed_target start_fen target b e :
  Board start_fen = Ok b ->
  legal_moves b <> [] ->
  from_uci target = Err e ->
  (exists e', possible_moves (Cleaned.Build start_fen target) = Err e')
  /\ (forall m ms, legal_moves b = m :: ms ->
        is_Ok (push_uci b (uci m)) = true ->
        possible_moves (Cleaned.Build start_fen target) = Err e).
Proof.
  intros Hb Hsome Ht. unfold possible_moves. cbn [Cleaned.FEN Cleaned.target_move].
  rewrite Hb. cbn [mbind result_bind].
  destruct (legal_moves b) as [|m ms]; [done|]. cbn [for_each try_move].
  destruct (push_uci b (uci m)) as [b1|e1] eqn:Hpush; cbn [mbind result_bind].
  - rewrite Ht. cbn [mbind result_bind]. split; [by exists e|done].
  - split; [by exists e1|]. intros ? ? [= <- <-] H. by rewrite Hpush in H.
Qed.

End PipelineFacts.

Section AdvanceFacts.
Context {E : RulesEngine} {P : PushEngine E}.
Variable is_null : move -> bool.
Variable normalize : board -> move -> move.


End AdvanceFacts.

(** ** The streaming converter *)

Section ConverterFacts.
Context {E : RulesEngine} {R : CsvReader}.

Lemma chunks_of_spec n : 0 < n -> forall fuel rows,
  length rows <= fuel ->
  concat (chunks_of fuel n rows) = rows
  /\ Forall (fun chunk => chunk <> [] /\ length chunk <= n) (chunks_of fuel n rows).
Proof.
  intros Hn. induction fuel as [|fuel IH]; intros rows Hlen.
  - destruct rows; [done|cbn in Hlen; lia].
  - destruct rows as [|r rows]; [done|].
    cbn [chunks_of concat].
    destruct (IH (drop n (r :: rows))) as [Hcat Hall].
    { rewrite length_drop. cbn [length] in *. lia. }
    rewrite Hcat, take_drop. split; [done|].
    constructor; [|done]. split.
    + destruct n; [lia|done].
    + rewrite length_take. lia.
Qed.

(** What [pd.read_csv] yields, against the records of the file. *)
Lemma read_chunk_length chunk : length (read_chunk chunk) = length chunk.
Proof.
  unfold read_chunk. rewrite length_zip_with, !read_column_length, !length_fmap. lia.
Qed.

Lemma read_chunk_nonempty chunk : chunk <> [] -> read_chunk chunk <> [].
Proof.
  intros Hne Hnil. apply (f_equal length) in Hnil.
  rewrite read_chunk_length in Hnil. by destruct chunk.
Qed.

Lemma read_chunk_row_of chunk : Forall2 row_of (read_chunk chunk) chunk.
Proof.
  apply Forall2_same_length_lookup_2; [apply read_chunk_length|].
  intros i row r Hrow Hr. unfold read_chunk in Hrow.
  apply lookup_zip_with_Some in Hrow as (f & t & -> & Hf & Ht).
  split; intros s Hs; cbn [Row.FEN Row.target_move] in Hs; subst.
  - apply read_column_str in Hf. rewrite list_lookup_fmap, Hr in Hf. by injection Hf.
  - apply read_column_str in Ht. rewrite list_lookup_fmap, Hr in Ht. by injection Ht.
Qed.

Lemma read_chunks_row_of chunks :
  Forall2 row_of (concat (read_chunk <$> chunks)) (concat chunks).
Proof.
  induction chunks as [|chunk chunks IH]; [constructor|].
  cbn [fmap list_fmap concat]. apply Forall2_app; [apply read_chunk_row_of|done].
Qed.

Lemma read_rows_row_of infile : Forall2 row_of (read_rows infile) infile.
Proof.
  unfold read_rows, read_csv. destruct infile as [|r infile].
  - cbn [fmap list_fmap concat]. rewrite app_nil_r. apply read_chunk_row_of.
  - pose proof (read_chunks_row_of (chunks_of (length (r :: infile)) 100 (r :: infile))) as H.
    by rewrite (proj1 (chunks_of_spec 100 ltac:(lia) _ (r :: infile) ltac:(done))) in H.
Qed.

Lemma read_csv_nonempty rows n :
  0 < n -> rows <> [] -> Forall (fun chunk => chunk <> []) (read_csv rows n).
Proof.
  intros Hn Hrows. unfold read_csv. destruct rows as [|r rows]; [done|].
  apply Forall_fmap.
  eapply Forall_impl; [apply (chunks_of_spec n Hn), reflexivity|].
  intros chunk [Hne _]. by apply read_chunk_nonempty.
Qed.

Lemma read_csv_cons rows n :
  rows <> [] -> exists chunk chunks, read_csv rows n = chunk :: chunks.
Proof.
  intros Hrows. unfold read_csv. destruct rows as [|r rows]; [done|].
  cbn [length chunks_of fmap list_fmap]. eauto.
Qed.

(** On a row whose position is a [str], a target that is no [str] stops
    the first turn of the loop. *)
Lemma try_move_row_not_str st m : is_Ok (try_move_row NotStr st m) = false.
Proof.
  destruct st as [b array_list]. unfold try_move_row.
  by destruct (push_uci b (uci m)).
Qed.

Lemma possible_moves_row_str f t :
  possible_moves_row (Row.Build (Str f) (Str t)) = possible_moves (Cleaned.Build f t).
Proof. reflexivity. Qed.

Lemma possible_moves_row_of row r :
  row_of row r ->
  is_Ok (possible_moves_row row) = true ->
  possible_moves_row row = possible_moves r.
Proof.
  destruct row as [fv tv], r as [f t]. intros [Hf Ht] Hok.
  cbn [Row.FEN Row.target_move Cleaned.FEN Cleaned.target_move] in *.
  destruct fv as [f'|]; [|done]. rewrite (Hf f' eq_refl).
  destruct tv as [t'|]; [by rewrite (Ht t' eq_refl)|].
  unfold possible_moves_row, possible_moves in *.
  cbn [Row.FEN Row.target_move Cleaned.FEN Cleaned.target_move Board_of_value] in *.
  destruct (Board f') as [b|]; [|done]. cbn [mbind result_bind] in *.
  destruct (legal_moves b) as [|m ms]; [done|]. exfalso.
  cbn [for_each] in Hok. pose proof (try_move_row_not_str (b, []) m) as Hm.
  by destruct (try_move_row NotStr (b, []) m).
Qed.

Lemma expand_rows_of rows recs :
  Forall2 row_of rows recs ->
  Forall (fun row => is_Ok (possible_moves_row row) = true) rows ->
  Forall (fun r => is_Ok (possible_moves r) = true) recs
  /\ expand_rows rows = expand_all recs.
Proof.
  unfold expand_rows, expand_all.
  induction 1 as [|row r rows recs Hrow _ IH]; intros Hok; [done|].
  apply Forall_cons in Hok as [Hok1 Hok].
  destruct (IH Hok) as [Hrecs Heq].
  pose proof (possible_moves_row_of _ _ Hrow Hok1) as Hsame. split.
  - constructor; [by rewrite <- Hsame|done].
  - cbn [map concat]. unfold row_expansion at 1, expansion at 1.
    by rewrite Hsame, Heq.
Qed.

Lemma map_each_expansion chunk :
  Forall (fun row => is_Ok (possible_moves_row row) = true) chunk ->
  map_each possible_moves_row chunk = Ok (map row_expansion chunk).
Proof.
  induction 1 as [|r chunk Hr _ IH]; [done|].
  cbn [map_each map]. unfold row_expansion at 1.
  destruct (possible_moves_row r) as [rows|]; [|done].
  cbn [mbind result_bind]. by rewrite IH.
Qed.

Lemma expand_all_app rows1 rows2 :
  expand_all (rows1 ++ rows2) = expand_all rows1 ++ expand_all rows2.
Proof. unfold expand_all. by rewrite map_app, concat_app. Qed.

Lemma expand_rows_app rows1 rows2 :
  expand_rows (rows1 ++ rows2) = expand_rows rows1 ++ expand_rows rows2.
Proof. unfold expand_rows. by rewrite map_app, concat_app. Qed.

Lemma convert_chunk_ok i chunk outfile :
  chunk <> [] ->
  Forall (fun row => is_Ok (possible_moves_row row) = true) chunk ->
  convert_chunk default_cols i chunk outfile
  = Ok (if (i =? 0)%nat
        then Header default_cols :: map data_line (expand_rows chunk)
        else outfile ++ map data_line (expand_rows chunk)).
Proof.
  intros Hne Hall. unfold convert_chunk.
  rewrite (map_each_expansion _ Hall). cbn [mbind result_bind].
  unfold pd_concat. destruct chunk as [|r chunk]; [done|]. cbn [map].
  cbn [mbind result_bind]. unfold to_csv.
  change (map_each select_column default_cols)
    with (Ok [fun r => Cell_array (Position r); fun r => Cell_float (Target r)]).
  cbn [mbind result_bind]. destruct (i =? 0)%nat; reflexivity.
Qed.

Lemma convert_chunks_append chunks : forall i outfile,
  Forall (fun chunk => chunk <> []
            /\ Forall (fun row => is_Ok (possible_moves_row row) = true) chunk) chunks ->
  convert_chunks default_cols (S i) chunks outfile
  = (outfile ++ map data_line (expand_rows (concat chunks)), Ok tt).
Proof.
  induction chunks as [|chunk chunks IH]; intros i outfile Hall.
  - cbn. by rewrite app_nil_r.
  - apply Forall_cons in Hall as [[Hne Hok] Hall].
    cbn [convert_chunks]. rewrite (convert_chunk_ok _ _ _ Hne Hok).
    cbn [Nat.eqb]. rewrite (IH _ _ Hall). cbn [concat].
    by rewrite expand_rows_app, map_app, (assoc_L (++)).
Qed.

(** The batches of a file all of whose rows expand. *)
Lemma read_csv_expandable infile :
  infile <> [] ->
  Forall (fun row => is_Ok (possible_moves_row row) = true) (read_rows infile) ->
  Forall (fun chunk => chunk <> []
            /\ Forall (fun row => is_Ok (possible_moves_row row) = true) chunk)
         (read_csv infile 100).
Proof.
  intros Hne Hall. pose proof (read_csv_nonempty infile 100 ltac:(lia) Hne) as Hchunks.
  apply Forall_forall. intros chunk Hchunk. split.
  - rewrite Forall_forall in Hchunks. by apply Hchunks.
  - apply Forall_forall. intros row Hrow. rewrite Forall_forall in Hall.
    apply Hall. unfold read_rows. apply list_elem_of_In, in_concat.
    exists chunk. split; by apply list_elem_of_In.
Qed.

Lemma expand_all_count rows :
  Forall (fun r => is_Ok (possible_moves r) = true) rows ->
  length (expand_all rows) = sum_list (legal_move_count <$> rows).
Proof.
  unfold expand_all. induction 1 as [|r rows Hr _ IH]; [done|].
  cbn [map concat fmap list_fmap sum_list sum_list_with].
  rewrite length_app, IH. f_equal. unfold expansion.
  destruct (possible_moves r) as [rws|] eqn:Hrws; [|done].
  by apply possible_moves_length.
Qed.

(** C4, amended.  For every csv file of at least one record, all of whose
    rows, as [pd.read_csv] yields them, [possible_moves] expands without an
    error, [make_converted_file] with the default columns leaves in the
    output file the header [Position, Target] as its first line, once,
    followed by the rows of the records in order, one per legal move of
    each record; the batch of index 0 writes the header and its rows over
    the file, every later batch appends its rows.  (A cell of a row is the
    text of its field or, when pandas reads the field as a missing value or
    the column of the batch as numbers or booleans, a value [possible_moves]
    raises on as soon as it uses it.) *)
Theorem make_converted_file_rows infile outfile :
  infile <> [] ->
  Forall (fun row => is_Ok (possible_moves_row row) = true) (read_rows infile) ->
  make_converted_file infile outfile None
  = (Header ["Position"; "Target"] :: map data_line (expand_all infile), Ok tt)
  /\ length (expand_all infile) = sum_list (legal_move_count <$> infile)
  /\ (forall i chunk out,
        chunk <> [] ->
        Forall (fun row => is_Ok (possible_moves_row row) = true) chunk ->
        convert_chunk ["Position"; "Target"] i chunk out
        = Ok (if (i =? 0)%nat
              then Header ["Position"; "Target"] :: map data_line (expand_rows chunk)
              else out ++ map data_line (expand_rows chunk))).
Proof.
  intros Hne Hall.
  destruct (expand_rows_of _ _ (read_rows_row_of infile) Hall) as [Hrecs Hsame].
  split; [|split].
  - unfold make_converted_file.
    pose proof (read_csv_expandable infile Hne Hall) as Hok.
    rewrite <- Hsame. unfold read_rows.
    destruct (read_csv_cons infile 100 Hne) as (chunk & chunks & Hchunks).
    rewrite Hchunks in *.
    apply Forall_cons in Hok as [[Hne1 Hok1] Hok].
    cbn [convert_chunks]. fold default_cols.
    rewrite (convert_chunk_ok _ _ _ Hne1 Hok1). cbn [Nat.eqb].
    rewrite (convert_chunks_append _ _ _ Hok).
    cbn [concat]. by rewrite expand_rows_app, map_app.
  - by apply expand_all_count.
  - intros i chunk out. apply convert_chunk_ok.
Qed.

End ConverterFacts.

(** ** The pipeline on python-chess *)

(** [push_uci] of python-chess rejects what is not a move identifier with
    [InvalidMoveError], and a move other than the null move that is not
    among the legal ones with [IllegalMoveError]; [pop] undoes [push]. *)
Lemma pychess_push_uci_malformed b s e :
  PyChess.from_uci s = Err e -> PyChess.push_uci b s = Err e.
Proof. intros H. unfold PyChess.push_uci. by rewrite H. Qed.

Lemma pychess_push_uci_illegal b s m :
  PyChess.from_uci s = Ok m ->
  PyChess.is_null m = false ->
  (let sqs := PyChess.squares (PyChess.current b) in
   PyChess.from_chess960 sqs (PyChess.to_chess960 sqs m))
    ∉ PyChess.legal_moves_of (PyChess.current b) ->
  PyChess.push_uci b s = Err IllegalMoveError.
Proof.
  intros Hm Hnull Hnot. unfold PyChess.push_uci. rewrite Hm.
  cbn [mbind result_bind]. rewrite Hnull. by rewrite bool_decide_eq_false_2.
Qed.

Lemma pychess_pop_push b m : PyChess.pop (PyChess.push b m) = Ok b.
Proof. by destruct b. Qed.

Lemma possible_moves_one_positive_witness :
  exists b t,
    Board (RulesEngine := PyChess.engine) advanced_fen = Ok b
    /\ from_uci "e7e5" = Ok t
    /\ exists rows,
      possible_moves (Cleaned.Build advanced_fen "e7e5") = Ok rows
      /\ length rows = length (legal_moves b)
      /\ Forall2 (row_for b t) (legal_moves b) rows
      /\ length (positives rows) = 1
      /\ Forall (fun r => Target r = 1%Z \/ Target r = 0%Z) rows.
Proof.
  eexists _, _. split; [vm_compute; reflexivity|]. split; [vm_compute; reflexivity|].
  eapply (possible_moves_one_positive (E := PyChess.engine)).
  - vm_compute. reflexivity.
  - vm_compute. reflexivity.
  - apply (bool_decide_unpack _). vm_compute. exact I.
  - apply (bool_decide_unpack _). vm_compute. exact I.
  - vm_compute. reflexivity.
Defined.

Lemma possible_moves_terminal_witness :
  possible_moves (E := PyChess.engine) (Cleaned.Build mated_fen "not a move") = Ok [].
Proof.
  eapply (possible_moves_terminal (E := PyChess.engine)).
  - vm_compute. reflexivity.
  - vm_compute. reflexivity.
Defined.

Lemma possible_moves_malformed_target_witness :
  exists b,
    Board (RulesEngine := PyChess.engine) advanced_fen = Ok b
    /\ (exists e', possible_moves (Cleaned.Build advanced_fen "e7-e5") = Err e')
    /\ (forall m ms, legal_moves b = m :: ms ->
          is_Ok (push_uci b (uci m)) = true ->
          possible_moves (Cleaned.Build advanced_fen "e7-e5") = Err InvalidMoveError).
Proof.
  eexists. split; [vm_compute; reflexivity|].
  eapply (possible_moves_malformed_target (E := PyChess.engine)).
  - vm_compute. reflexivity.
  - vm_compute. discriminate.
  - vm_compute. reflexivity.
Defined.




(** C4 as the specification states it fails on a csv file without records:
    the only batch is empty, [pd.concat] raises on it and nothing is
    written, so the output does not start with the header. *)
Lemma make_converted_file_no_records :
  make_converted_file (E := PyChess.engine) (R := Pandas.reader) [] [] None
  = ([], Err ValueError_concat)
  /\ ~ (exists data,
          (make_converted_file (E := PyChess.engine) (R := Pandas.reader) [] [] None).1
          = Header ["Position"; "Target"] :: data).
Proof.
  split; [reflexivity|]. intros [data H]. discriminate H.
Qed.

Lemma make_converted_file_rows_witness :
  make_converted_file (E := PyChess.engine) (R := Pandas.reader) two_batches [] None
  = (Header ["Position"; "Target"] :: map data_line (expand_all two_batches), Ok tt)
  /\ length (expand_all (E := PyChess.engine) two_batches)
     = sum_list (legal_move_count <$> two_batches)
  /\ (forall i chunk out,
        chunk <> [] ->
        Forall (fun row => is_Ok (possible_moves_row (E := PyChess.engine) row) = true)
               chunk ->
        convert_chunk ["Position"; "Target"] i chunk out
        = Ok (if (i =? 0)%nat
              then Header ["Position"; "Target"] :: map data_line (expand_rows chunk)
              else out ++ map data_line (expand_rows chunk))).
Proof.
  apply (make_converted_file_rows (E := PyChess.engine) (R := Pandas.reader)).
  - discriminate.
  - apply (bool_decide_unpack _). vm_compute. exact I.
Defined.

(** The two batches of that file give the header and the 20 rows of its
    last record. *)
Example two_batches_lines :
  length (make_converted_file (E := PyChess.engine) (R := Pandas.reader)
            two_batches [] None).1 = 21
  /\ sum_list (legal_move_count (E := PyChess.engine) <$> two_batches) = 20.
Proof. split; vm_compute; reflexivity. Qed.

(** C8.  On the initial position with the moves [e2e4 e7e5],
    [puzzle_cleaning] gives the position after 1. e4 (the encoder finds a
    white pawn on e4 and nothing on e2) with the target [e7e5], and
    [possible_moves] returns 20 rows for it, one per legal reply; the row
    of [e7e5] is labelled 1.0 and holds the encoding of the position after
    1. e4 e5, the other 19 rows are labelled 0.0. *)
Theorem end_to_end_example :
  puzzle_cleaning (E := PyChess.engine) [Puzzle.Build STARTING_FEN "e2e4 e7e5"]
  = Ok [Cleaned.Build advanced_fen "e7e5"]
  /\ (a ← fen_to_array advanced_fen; Ok (a !! (13 * 36 + 1), a !! (13 * 52 + 0)))
     = Ok (Some 1%Z, Some 1%Z)
  /\ (b ← Board (RulesEngine := PyChess.engine) advanced_fen;
      Ok (uci <$> legal_moves b))
     = Ok ["g8h6"; "g8f6"; "b8c6"; "b8a6"; "h7h6"; "g7g6"; "f7f6"; "e7e6"; "d7d6";
           "c7c6"; "b7b6"; "a7a6"; "h7h5"; "g7g5"; "f7f5"; "e7e5"; "d7d5"; "c7c5";
           "b7b5"; "a7a5"]
  /\ (rows ← possible_moves (E := PyChess.engine) (Cleaned.Build advanced_fen "e7e5");
      Ok (length rows, Target <$> rows))
     = Ok (20, [0; 0; 0; 0; 0; 0; 0; 0; 0; 0; 0; 0; 0; 0; 0; 1; 0; 0; 0; 0]%Z)
  /\ (rows ← possible_moves (E := PyChess.engine) (Cleaned.Build advanced_fen "e7e5");
      Ok (Position <$> rows !! 15))
     = (a ← fen_to_array solved_fen; Ok (Some a)).
Proof.
  split; [vm_compute; reflexivity|].
  split; [vm_compute; reflexivity|].
  split; [vm_compute; reflexivity|].
  split; [vm_compute; reflexivity|].
  vm_compute. reflexivity.
Qed.

(** ** More on the board encoder *)

(** *** Str.split() *)

Lemma str_split_blank s :
  str_split s = [] <-> Forall (fun c => isspace c = true) (chars s).
Proof.
  induction s as [|c s IH]; [by split; [constructor|]|].
  cbn [str_split chars list_ascii_of_string]. fold (chars s).
  destruct (isspace c) eqn:Hc.
  - rewrite IH. split; [by constructor|]. by intros [_ ?]%Forall_cons.
  - split.
    + destruct s as [|c' s']; [done|]. destruct (isspace c'); [done|].
      by destruct (str_split (String c' s')).
    + intros [? _]%Forall_cons. congruence.
Qed.

Lemma board_string_of_blank fen :
  board_string_of fen = None <-> Forall (fun c => isspace c = true) (chars fen).
Proof.
  rewrite <- str_split_blank. unfold board_string_of.
  destruct (str_split fen); cbn; split; congruence.
Qed.

Lemma fen_to_array_no_field fen :
  board_string_of fen = None -> fen_to_array fen = Err IndexError.
Proof.
  unfold board_string_of, fen_to_array, list_getitem. rewrite <- head_lookup.
  by destruct (head (str_split fen)).
Qed.

(** X1. [fen_to_array] raises [IndexError] exactly on a string with no
    field: the empty string or one of white space only (there
    [fen.split()[0]] has nothing to index). *)
Theorem fen_to_array_blank fen :
  fen_to_array fen = Err IndexError <-> Forall (fun c => isspace c = true) (chars fen).
Proof.
  rewrite <- board_string_of_blank. split.
  - intros H. destruct (board_string_of fen) as [bs|] eqn:Hbs; [|done]. exfalso.
    rewrite (fen_to_array_board_string _ _ Hbs) in H.
    destruct (decide (String.length bs = 64)) as [Hlen|Hlen].
    + rewrite Hlen in H. cbn [Nat.eqb negb] in H.
      destruct (mark_squares_outcome bs Hlen) as [[_ Hok]|(c & _ & _ & Herr)];
        congruence.
    + apply Nat.eqb_neq in Hlen. rewrite Hlen in H. done.
  - apply fen_to_array_no_field.
Qed.

(** *** Strings as lists of characters *)

Lemma chars_app s1 s2 : chars (s1 ++ s2)%string = chars s1 ++ chars s2.
Proof.
  unfold chars. induction s1 as [|c s1 IH]; [done|].
  simpl. by f_equal.
Qed.

Lemma chars_inj s1 s2 : chars s1 = chars s2 -> s1 = s2.
Proof.
  intros H. rewrite <- (string_of_list_ascii_of_string s1).
  rewrite <- (string_of_list_ascii_of_string s2). unfold chars in H. by rewrite H.
Qed.

Lemma chars_str_repeat c n : chars (str_repeat c n) = replicate n c.
Proof.
  unfold chars. induction n as [|n IH]; [done|].
  cbn [str_repeat list_ascii_of_string replicate]. by f_equal.
Qed.

Lemma str_split_on_chars sep s :
  concat (map chars (str_split_on sep s)) = filter (fun c => c <> sep) (chars s).
Proof.
  induction s as [|c s IH]; [done|].
  cbn [str_split_on chars list_ascii_of_string]. fold (chars s).
  rewrite filter_cons. destruct (Ascii.eqb_spec c sep) as [->|Hne].
  - rewrite decide_False by auto. cbn [map concat chars list_ascii_of_string app]. done.
  - rewrite decide_True by done. rewrite <- IH.
    destruct (str_split_on sep s) as [|w ws]; [done|]. done.
Qed.

Lemma expand_chars_fold l : forall bs,
  chars (fold_left (fun bs char => (bs ++ addon char)%string) l bs)
  = chars bs ++ flat_map (fun c => chars (addon c)) l.
Proof.
  induction l as [|c l IH]; intros bs; cbn [fold_left flat_map].
  - by rewrite app_nil_r.
  - by rewrite IH, chars_app, <- (assoc_L (++)).
Qed.

Lemma expand_rows_chars rows : forall bs,
  chars (fold_left expand_row rows bs)
  = chars bs ++ flat_map (fun c => chars (addon c)) (concat (map chars rows)).
Proof.
  induction rows as [|row rows IH]; intros bs; cbn [fold_left map concat].
  - by rewrite app_nil_r.
  - rewrite IH. unfold expand_row at 1. fold (chars row).
    rewrite expand_chars_fold, flat_map_app. by rewrite <- (assoc_L (++)).
Qed.

Lemma expand_placement_chars placement :
  chars (expand_placement placement)
  = flat_map (fun c => chars (addon c)) (without_slashes placement).
Proof.
  unfold expand_placement, without_slashes.
  by rewrite expand_rows_chars, str_split_on_chars.
Qed.

(** X2. [fen_to_array] does not look at the rank separators: two strings
    whose placement fields have the same characters once every [/] is
    removed are encoded alike, in the result and in the error raised. *)
Theorem fen_to_array_ignores_slashes fen1 fen2 placement1 placement2 :
  head (str_split fen1) = Some placement1 ->
  head (str_split fen2) = Some placement2 ->
  without_slashes placement1 = without_slashes placement2 ->
  fen_to_array fen1 = fen_to_array fen2.
Proof.
  intros H1 H2 Hsame.
  assert (expand_placement placement1 = expand_placement placement2) as Hbs.
  { apply chars_inj. by rewrite !expand_placement_chars, Hsame. }
  rewrite (fen_to_array_board_string fen1 (expand_placement placement1)),
          (fen_to_array_board_string fen2 (expand_placement placement2)).
  - by rewrite Hbs.
  - unfold board_string_of. by rewrite H2.
  - unfold board_string_of. by rewrite H1.
Qed.

Lemma fen_to_array_ignores_slashes_witness :
  fen_to_array STARTING_FEN
  = fen_to_array "rnbqkbnrpppp/pppp/88/8/8PPPPPPPPRNBQKBNR w KQkq - 0 1".
Proof.
  apply (fen_to_array_ignores_slashes _ _
           "rnbqkbnr/pppppppp/8/8/8/8/PPPPPPPP/RNBQKBNR"
           "rnbqkbnrpppp/pppp/88/8/8PPPPPPPPRNBQKBNR");
    vm_compute; reflexivity.
Defined.

Lemma addon_plain c : c <> "/"%char -> Forall plain (chars (addon c)).
Proof.
  intros Hc. unfold addon. destruct (str_contains c "12345678") eqn:Hd; cbn [negb].
  - rewrite chars_str_repeat. apply Forall_replicate. by split.
  - repeat constructor; [|done]. unfold addon. by rewrite Hd.
Qed.

(** X3. The expansion loop of [fen_to_array] is idempotent: run on its own
    output, the board string, it returns it unchanged. *)
Theorem expand_placement_idempotent placement :
  expand_placement (expand_placement placement) = expand_placement placement.
Proof.
  apply chars_inj. rewrite (expand_placement_chars (expand_placement placement)).
  unfold without_slashes at 1. rewrite expand_placement_chars.
  assert (Forall plain (flat_map (fun c => chars (addon c)) (without_slashes placement)))
    as Hplain.
  { unfold without_slashes. induction (chars placement) as [|c l IH]; [constructor|].
    rewrite filter_cons. case_decide; [|done].
    cbn [flat_map]. apply Forall_app. split; [by apply addon_plain|done]. }
  induction Hplain as [|c l [Hc Hne] _ IH]; [done|].
  rewrite filter_cons, decide_True by done. cbn [flat_map]. rewrite Hc, IH. done.
Qed.

(** *** The encoding determines the board string *)

Lemma fen_to_array_Ok_inv fen v :
  fen_to_array fen = Ok v ->
  exists bs, board_string_of fen = Some bs /\ String.length bs = 64
    /\ Forall known (chars bs)
    /\ v = concat (map (fun c => one_hot (class_of c)) (chars bs)).
Proof.
  intros H. destruct (board_string_of fen) as [bs|] eqn:Hbs.
  - exists bs. rewrite (fen_to_array_board_string _ _ Hbs) in H.
    destruct (decide (String.length bs = 64)) as [Hlen|Hlen].
    + rewrite Hlen in H. cbn [Nat.eqb negb] in H.
      destruct (mark_squares_outcome bs Hlen) as [[Hall Hok]|(c & _ & _ & Herr)];
        [|congruence].
      rewrite Hok in H. injection H as <-. done.
    + apply Nat.eqb_neq in Hlen. rewrite Hlen in H. done.
  - apply fen_to_array_no_field in Hbs. congruence.
Qed.

Lemma piece_dict_symbol c k : piece_dict c = Some k -> symbol_of_class k = c.
Proof.
  destruct c as [[] [] [] [] [] [] [] []]; simpl; intros H; inversion H; reflexivity.
Qed.

Lemma one_hot_inj k1 k2 : k1 < 13 -> k2 < 13 -> one_hot k1 = one_hot k2 -> k1 = k2.
Proof.
  intros H1 H2 Heq. assert (one_hot k1 !! k1 = one_hot k2 !! k1) as H by by rewrite Heq.
  rewrite !one_hot_lookup in H by done. rewrite decide_True in H by done.
  by case_decide.
Qed.

Lemma blocks_inj cs1 : forall cs2,
  Forall known cs1 -> Forall known cs2 ->
  concat (map (fun c => one_hot (class_of c)) cs1)
  = concat (map (fun c => one_hot (class_of c)) cs2) ->
  cs1 = cs2.
Proof.
  induction cs1 as [|c1 cs1 IH]; intros cs2 H1 H2 Heq.
  - destruct cs2 as [|c2 cs2]; [done|]. cbn [map concat] in Heq.
    apply (f_equal length) in Heq. rewrite length_app, one_hot_length in Heq.
    cbn [length] in Heq. lia.
  - destruct cs2 as [|c2 cs2].
    { cbn [map concat] in Heq. apply (f_equal length) in Heq.
      rewrite length_app, one_hot_length in Heq. cbn [length] in Heq. lia. }
    apply Forall_cons in H1 as [[k1 Hk1] H1]. apply Forall_cons in H2 as [[k2 Hk2] H2].
    cbn [map concat] in Heq. apply app_inj_1 in Heq as [Hhead Htail];
      [|by rewrite !one_hot_length].
    unfold class_of in Hhead. rewrite Hk1, Hk2 in Hhead. cbn in Hhead.
    apply one_hot_inj in Hhead; [|by eapply piece_dict_lt..]. subst k2.
    apply piece_dict_symbol in Hk1, Hk2. f_equal; [congruence|by apply IH].
Qed.

(** X4. [fen_to_array] is injective on board strings: two strings encoded
    as the same vector have the same expanded board string. *)
Theorem fen_to_array_injective fen1 fen2 v :
  fen_to_array fen1 = Ok v ->
  fen_to_array fen2 = Ok v ->
  board_string_of fen1 = board_string_of fen2.
Proof.
  intros (bs1 & -> & _ & Hk1 & ->)%fen_to_array_Ok_inv
         (bs2 & -> & _ & Hk2 & Heq)%fen_to_array_Ok_inv.
  f_equal. apply chars_inj. by apply blocks_inj.
Qed.

Lemma fen_to_array_injective_witness :
  board_string_of STARTING_FEN
  = board_string_of "rnbqkbnr/pppppppp/44/8/8/8/PPPPPPPP/RNBQKBNR b - - 3 9".
Proof.
  destruct (fen_to_array STARTING_FEN) as [v|] eqn:Hv; [|vm_compute in Hv; discriminate].
  apply (fen_to_array_injective _ _ v Hv).
  rewrite <- Hv. vm_compute. reflexivity.
Defined.

(** *** Piece counts *)

Lemma class_count_blocks k cs :
  k < 13 -> Forall known cs ->
  total (map (fun i => default 0%Z
                 (concat (map (fun c => one_hot (class_of c)) cs) !! (13 * i + k)))
             (seq 0 (length cs)))
  = Z.of_nat (length (filter (fun c => piece_dict c = Some k) cs)).
Proof.
  intros Hk. induction 1 as [|c cs [kc Hc] _ IH]; [done|].
  pose proof (piece_dict_lt _ _ Hc) as Hlt.
  cbn [length seq map concat]. rewrite <- fmap_S_seq.
  change (map ?f (S <$> ?l)) with (f <$> (S <$> l)). rewrite <- list_fmap_compose.
  unfold total in *. cbn [foldr].
  rewrite (list_fmap_ext _ (fun i => default 0%Z
             (concat (map (fun c => one_hot (class_of c)) cs) !! (13 * i + k)))).
  2:{ intros i x _. cbn. rewrite lookup_app_r by (rewrite one_hot_length; lia).
      rewrite one_hot_length. do 2 f_equal. lia. }
  change (foldr Z.add 0%Z (?f <$> ?l)) with (foldr Z.add 0%Z (map f l)).
  rewrite IH. replace (13 * 0 + k) with k by lia.
  rewrite lookup_app_l by (rewrite one_hot_length; lia).
  unfold class_of at 1. rewrite Hc. cbn [default].
  rewrite one_hot_lookup by done. cbn [default]. unfold id.
  rewrite filter_cons, Hc. destruct (decide (k = kc)) as [->|Hne].
  - rewrite decide_True by done. cbn [length]. lia.
  - rewrite decide_False by congruence. lia.
Qed.

(** X5. The vector [fen_to_array] returns counts the pieces: for each of
    the 13 classes, the cells at the slot of the class over the 64 blocks
    sum to the number of characters of that class in the board string. *)
Theorem fen_to_array_piece_counts fen v k :
  fen_to_array fen = Ok v ->
  k < 13 ->
  exists bs, board_string_of fen = Some bs
    /\ class_count k v
       = Z.of_nat (length (filter (fun c => piece_dict c = Some k) (chars bs))).
Proof.
  intros (bs & Hbs & Hlen & Hknown & ->)%fen_to_array_Ok_inv Hk.
  exists bs. split; [done|]. unfold class_count.
  rewrite <- length_chars in Hlen. rewrite <- Hlen. by apply class_count_blocks.
Qed.

Lemma fen_to_array_piece_counts_witness :
  exists v, fen_to_array STARTING_FEN = Ok v
    /\ exists bs, board_string_of STARTING_FEN = Some bs
         /\ class_count 1 v
            = Z.of_nat (length (filter (fun c => piece_dict c = Some 1) (chars bs))).
Proof.
  destruct (fen_to_array STARTING_FEN) as [v|] eqn:Hv; [|vm_compute in Hv; discriminate].
  exists v. split; [done|]. apply (fen_to_array_piece_counts _ _ 1 Hv). lia.
Defined.

(** ** More on the move expander and the puzzle advancer *)

Section MorePipelineFacts.
Context {E : RulesEngine}.

(** X6. When the target of a record is a well-formed move that is not
    legal in its position, [possible_moves] still returns one row per legal
    move, and every row has target 0: no row is marked. *)
Theorem possible_moves_illegal_target start_fen target b t :
  Board start_fen = Ok b ->
  from_uci target = Ok t ->
  t ∉ legal_moves b ->
  expandable b = true ->
  exists rows,
    possible_moves (Cleaned.Build start_fen target) = Ok rows
    /\ length rows = length (legal_moves b)
    /\ Forall (fun r => Target r = 0%Z) rows
    /\ positives rows = [].
Proof.
  intros Hb Ht Hnot Hexp.
  unfold expandable in Hexp. rewrite forallb_forall in Hexp.
  destruct (try_moves_ok target t b (legal_moves b) Ht) with (acc := @nil candidate)
    as (rows & Hloop & Hrows).
  { apply Forall_forall. intros m Hm. apply Hexp. by apply list_elem_of_In. }
  assert (Forall (fun r => Target r = 0%Z) rows) as Hzero.
  { clear -Hrows Hnot.
    induction Hrows as [|m r ms rows (b' & _ & _ & Hr) _ IH]; [done|].
    apply not_elem_of_cons in Hnot as [Hne Hnot].
    constructor; [|by apply IH]. rewrite Hr. by rewrite decide_False. }
  exists rows. split; [|split; [|split]].
  - unfold possible_moves. cbn [Cleaned.FEN Cleaned.target_move].
    rewrite Hb. cbn [mbind result_bind]. by rewrite Hloop.
  - symmetry. by eapply Forall2_length.
  - done.
  - unfold positives. clear -Hzero. induction Hzero as [|r rows Hr _ IH]; [done|].
    rewrite filter_cons, decide_False by (rewrite Hr; done). done.
Qed.

(** X7. On a record whose position is readable, [single_move] raises
    [IndexError] when the [Moves] field has no move, and [puzzle_cleaning]
    raises [IndexError] when it has none or just one (with one,
    [single_move] itself succeeds: it is [Moves.split()[1]] that fails). *)
Theorem puzzle_cleaning_too_few_moves (r : Puzzle.t) b :
  Board (Puzzle.FEN r) = Ok b ->
  (str_split (Puzzle.Moves r) = [] ->
     single_move r = Err IndexError /\ puzzle_cleaning [r] = Err IndexError)
  /\ (forall first b',
        str_split (Puzzle.Moves r) = [first] ->
        push_uci b first = Ok b' ->
        single_move r = Ok (fen b') /\ puzzle_cleaning [r] = Err IndexError).
Proof.
  intros Hb. split.
  - intros Hnone. assert (single_move r = Err IndexError) as Hs.
    { unfold single_move, list_getitem. by rewrite Hb, Hnone. }
    split; [done|]. unfold puzzle_cleaning. cbn [map_each]. by rewrite Hs.
  - intros first b' Hone Hpush. assert (single_move r = Ok (fen b')) as Hs.
    { unfold single_move, list_getitem. rewrite Hb, Hone. cbn. by rewrite Hpush. }
    split; [done|]. unfold puzzle_cleaning. cbn [map_each]. rewrite Hs.
    unfold list_getitem. by rewrite Hone.
Qed.

Lemma map_each_Ok {A B} (f : A -> result B) xs ys :
  map_each f xs = Ok ys <-> Forall2 (fun x y => f x = Ok y) xs ys.
Proof.
  revert ys. induction xs as [|x xs IH]; intros ys.
  - cbn. split; [intros [= <-]; constructor|by intros ->%Forall2_nil_inv_l].
  - cbn [map_each]. split.
    + destruct (f x) as [y|] eqn:Hy; [|done]. cbn [mbind result_bind].
      destruct (map_each f xs) as [ys'|]; [|done]. cbn [mbind result_bind].
      intros [= <-]. constructor; [done|]. by apply IH.
    + intros (y & ys' & Hy & Hall & ->)%Forall2_cons_inv_l.
      rewrite Hy. cbn [mbind result_bind]. apply IH in Hall. by rewrite Hall.
Qed.

(** X8. [puzzle_cleaning] works record by record: on a frame with at
    least one record it returns [out] exactly when [out] has one record per
    input record, each the one [puzzle_cleaning] returns on that record
    alone. *)
Theorem puzzle_cleaning_row_wise puzzle_df out :
  puzzle_df <> [] ->
  puzzle_cleaning puzzle_df = Ok out
  <-> Forall2 (fun r p => puzzle_cleaning [r] = Ok [p]) puzzle_df out.
Proof.
  intros Hne.
  assert (puzzle_cleaning puzzle_df
          = fens ← map_each single_move puzzle_df;
            targets ← map_each (fun r => list_getitem (str_split (Puzzle.Moves r)) 1)
                        puzzle_df;
            Ok (zip_with Cleaned.Build fens targets)) as Hdef
    by by destruct puzzle_df.
  assert (forall r p, puzzle_cleaning [r] = Ok [p]
            <-> single_move r = Ok (Cleaned.FEN p)
                /\ list_getitem (str_split (Puzzle.Moves r)) 1 = Ok (Cleaned.target_move p))
    as Hone.
  { intros r [f t]. unfold puzzle_cleaning. cbn [map_each Cleaned.FEN Cleaned.target_move].
    destruct (single_move r) as [f'|]; cbn [mbind result_bind]; [|by split; [|intros []]].
    destruct (list_getitem _ 1) as [t'|]; cbn [mbind result_bind];
      [|by split; [|intros []]].
    cbn. split; [by intros [= -> ->]|by intros [[= ->] [= ->]]]. }
  split.
  - intros H. rewrite Hdef in H. clear Hdef Hne.
    destruct (map_each single_move puzzle_df) as [fens|] eqn:Hf; [|done].
    cbn [mbind result_bind] in H.
    destruct (map_each _ puzzle_df) as [targets|] eqn:Ht in H; [|done].
    cbn [mbind result_bind] in H. injection H as <-.
    apply map_each_Ok in Hf, Ht. clear -Hf Ht Hone. revert targets Ht.
    induction Hf as [|r f rs fs Hr _ IH]; intros targets Ht.
    + apply Forall2_nil_inv_l in Ht as ->. constructor.
    + apply Forall2_cons_inv_l in Ht as (t & ts & Ht & Hts & ->).
      cbn [zip_with]. constructor; [|by apply IH]. by apply Hone.
  - intros Hall.
    assert (map_each single_move puzzle_df = Ok (Cleaned.FEN <$> out)
            /\ map_each (fun r => list_getitem (str_split (Puzzle.Moves r)) 1) puzzle_df
               = Ok (Cleaned.target_move <$> out)) as [Hf Ht].
    { rewrite !map_each_Ok. split.
      - apply Forall2_fmap_r. eapply Forall2_impl; [apply Hall|].
        intros r p Hp. by apply Hone in Hp as [? _].
      - apply Forall2_fmap_r. eapply Forall2_impl; [apply Hall|].
        intros r p Hp. by apply Hone in Hp as [_ ?]. }
    rewrite Hdef, Hf, Ht.
    cbn [mbind result_bind]. f_equal. clear. induction out as [|[f t] out IH]; [done|].
    cbn. by rewrite IH.
Qed.
End MorePipelineFacts.

(** ** More on the streaming converter *)

Section MoreConverterFacts.
Context {E : RulesEngine} {R : CsvReader}.

Lemma chunks_of_fuel n : 0 < n -> forall fuel1 fuel2 rows,
  length rows <= fuel1 -> length rows <= fuel2 ->
  chunks_of fuel1 n rows = chunks_of fuel2 n rows.
Proof.
  intros Hn. induction fuel1 as [|fuel1 IH]; intros fuel2 rows H1 H2.
  - destruct rows; [|cbn in H1; lia]. by destruct fuel2.
  - destruct rows as [|r rows]; [by destruct fuel2|].
    destruct fuel2 as [|fuel2]; [cbn in H2; lia|].
    cbn [chunks_of]. f_equal. apply IH; rewrite length_drop; cbn [length] in *; lia.
Qed.

Lemma chunks_of_app n k : 0 < n -> forall pre post fuel,
  length pre = n * k ->
  length pre + length post <= fuel ->
  chunks_of fuel n (pre ++ post)
  = chunks_of (length pre) n pre ++ chunks_of (length post) n post.
Proof.
  intros Hn. induction k as [|k IH]; intros pre post fuel Hlen Hfuel.
  - destruct pre; [|cbn in Hlen; lia]. cbn [app length chunks_of].
    apply chunks_of_fuel; cbn in *; lia.
  - destruct pre as [|r pre]; [cbn in Hlen; lia|].
    destruct fuel as [|fuel]; [cbn in Hfuel; lia|].
    change (chunks_of (length (r :: pre)) n (r :: pre))
      with (take n (r :: pre) :: chunks_of (length pre) n (drop n (r :: pre))).
    change ((r :: pre) ++ post) with (r :: (pre ++ post)).
    cbn [chunks_of]. change (r :: (pre ++ post)) with ((r :: pre) ++ post).
    assert (n <= length (r :: pre)) as Hge by lia.
    rewrite take_app_le, drop_app_le by done.
    cbn [app]. f_equal.
    rewrite (IH (drop n (r :: pre)) post fuel).
    + f_equal. apply chunks_of_fuel; [done|..]; rewrite length_drop; cbn [length]; lia.
    + rewrite length_drop. lia.
    + rewrite length_drop. cbn [length] in *. lia.
Qed.

Lemma map_each_Err {A B} (f : A -> result B) xs :
  Exists (fun x => is_Ok (f x) = false) xs -> exists e, map_each f xs = Err e.
Proof.
  induction xs as [|x xs IH]; intros Hex; [by apply Exists_nil in Hex|].
  cbn [map_each]. destruct (f x) as [y|e] eqn:Hy; [|by exists e].
  apply Exists_cons in Hex as [Hx|Hex]; [by rewrite Hy in Hx|].
  destruct (IH Hex) as [e He]. exists e. cbn [mbind result_bind]. by rewrite He.
Qed.

Lemma convert_chunks_stop good bad rest e : forall i outfile,
  Forall (fun chunk => chunk <> []
            /\ Forall (fun row => is_Ok (possible_moves_row row) = true) chunk) good ->
  (forall i outfile, convert_chunk default_cols i bad outfile = Err e) ->
  convert_chunks default_cols i (good ++ bad :: rest) outfile
  = ((convert_chunks default_cols i good outfile).1, Err e).
Proof.
  induction good as [|chunk good IH]; intros i outfile Hgood Hbad.
  - cbn [app convert_chunks]. by rewrite Hbad.
  - apply Forall_cons in Hgood as [[Hne Hok] Hgood].
    cbn [app convert_chunks]. rewrite (convert_chunk_ok _ _ _ Hne Hok).
    by apply IH.
Qed.

(** X9. When [possible_moves] raises on a row of batch [k] of
    [make_converted_file], as [pd.read_csv] yields that batch, and on no
    row of the batches before, the call raises and the file keeps exactly
    the header and the rows of those [k] batches: nothing of batch [k] is
    written, and when [k] is 0 the file is not touched. *)
Theorem make_converted_file_failing_batch pre post outfile k :
  length pre = 100 * k ->
  Forall (fun row => is_Ok (possible_moves_row row) = true) (read_rows pre) ->
  Exists (fun row => is_Ok (possible_moves_row row) = false)
         (read_chunk (take 100 post)) ->
  exists e,
    make_converted_file (pre ++ post) outfile None
    = (if decide (k = 0) then outfile
       else Header ["Position"; "Target"] :: map data_line (expand_all pre),
       Err e).
Proof.
  intros Hlen Hok Hbad.
  assert (post <> []) as Hpost.
  { intros ->. rewrite take_nil in Hbad.
    pose proof (read_chunk_length []) as Hnil.
    destruct (read_chunk []); [by apply Exists_nil in Hbad|done]. }
  destruct (map_each_Err possible_moves_row _ Hbad) as [e He]. exists e.
  assert (exists rest, chunks_of (length post) 100 post = take 100 post :: rest)
    as [rest Hrest].
  { destruct post as [|r post]; [done|]. cbn [length chunks_of]. eauto. }
  assert (forall i outfile,
            convert_chunk default_cols i (read_chunk (take 100 post)) outfile = Err e)
    as Hfail.
  { intros i out. unfold convert_chunk. by rewrite He. }
  unfold make_converted_file, read_csv. fold default_cols.
  destruct (pre ++ post) as [|r0 l0] eqn:Hall; [by destruct pre|]. rewrite <- Hall.
  rewrite (chunks_of_app 100 k) by (rewrite ?length_app; lia). rewrite Hrest.
  rewrite fmap_app, fmap_cons.
  destruct (decide (k = 0)) as [->|Hk].
  - destruct pre; [|cbn in Hlen; lia].
    cbn [length chunks_of app fmap list_fmap convert_chunks].
    by rewrite Hfail.
  - destruct pre as [|r pre]; [cbn in Hlen; lia|].
    destruct (expand_rows_of _ _ (read_rows_row_of (r :: pre)) Hok) as [_ Hsame].
    pose proof (read_csv_expandable (r :: pre) ltac:(done) Hok) as Hgood.
    unfold read_rows in Hsame. unfold read_csv in Hgood, Hsame.
    rewrite (convert_chunks_stop _ _ _ e 0 outfile Hgood Hfail). f_equal.
    rewrite <- Hsame.
    cbn [length chunks_of fmap list_fmap] in Hgood |- *.
    apply Forall_cons in Hgood as [[Hne1 Hok1] Hgood].
    cbn [convert_chunks]. rewrite (convert_chunk_ok _ _ _ Hne1 Hok1). cbn [Nat.eqb].
    rewrite (convert_chunks_append _ _ _ Hgood). cbn [fst].
    cbn [concat]. by rewrite expand_rows_app, map_app.
Qed.

(** X19. When pandas reads the position of the first row of the file as a
    value that is no [str], [make_converted_file] raises [AttributeError];
    when it reads the position as a [str] and the target as no [str] (a
    first batch whose targets are all digits is read as integers), it
    raises [TypeError] at the first legal move of the position.  Either way
    the output file is not touched. *)
Theorem make_converted_file_not_str infile outfile out_cols row rest :
  read_rows infile = row :: rest ->
  (Row.FEN row = NotStr ->
   make_converted_file infile outfile out_cols = (outfile, Err AttributeError))
  /\ (forall f b m ms b1,
        Row.FEN row = Str f ->
        Row.target_move row = NotStr ->
        Board f = Ok b ->
        legal_moves b = m :: ms ->
        push_uci b (uci m) = Ok b1 ->
        make_converted_file infile outfile out_cols = (outfile, Err TypeError)).
Proof.
  intros Hrows.
  assert (exists chunk chunks, read_csv infile 100 = (row :: chunk) :: chunks)
    as (chunk & chunks & Hchunks).
  { destruct infile as [|r infile].
    - unfold read_rows, read_csv in Hrows. cbn [fmap list_fmap concat] in Hrows.
      pose proof (read_chunk_length []) as Hnil.
      destruct (read_chunk []); [done|done].
    - destruct (read_csv_cons (r :: infile) 100 ltac:(done)) as (c & cs & Hcs).
      pose proof (read_csv_nonempty (r :: infile) 100 ltac:(lia) ltac:(done)) as Hne.
      unfold read_rows in Hrows. rewrite Hcs in Hrows, Hne.
      apply Forall_cons in Hne as [Hne _]. destruct c as [|row' c]; [done|].
      cbn [concat app] in Hrows. injection Hrows as -> _. eauto. }
  assert (forall e, possible_moves_row row = Err e ->
            make_converted_file infile outfile out_cols = (outfile, Err e)) as Hfail.
  { intros e He. unfold make_converted_file. rewrite Hchunks.
    cbn [convert_chunks]. unfold convert_chunk. cbn [map_each]. by rewrite He. }
  split.
  - intros Hfen. apply Hfail. unfold possible_moves_row. by rewrite Hfen.
  - intros f b m ms b1 Hfen Htarget Hb Hmoves Hpush. apply Hfail.
    unfold possible_moves_row. rewrite Hfen, Htarget.
    cbn [Board_of_value]. rewrite Hb. cbn [mbind result_bind]. rewrite Hmoves.
    assert (try_move_row NotStr (b, []) m = Err TypeError) as Hm.
    { unfold try_move_row. by rewrite Hpush. }
    cbn [for_each]. by rewrite Hm.
Qed.

(** Columns given by the caller. *)
Lemma elem_of_default_cols name :
  name ∈ default_cols <-> name = "Position" \/ name = "Target".
Proof.
  unfold default_cols. rewrite !elem_of_cons, elem_of_nil. tauto.
Qed.

Lemma select_columns_valid cols :
  Forall (fun name => name ∈ default_cols) cols ->
  exists getters, map_each select_column cols = Ok getters
    /\ forall r, map (fun g => g r) getters = map (cell_of r) cols.
Proof.
  induction 1 as [|name cols Hname _ (getters & Hg & Hcells)]; [by exists []|].
  cbn [map_each]. rewrite Hg.
  assert (name = "Position" \/ name = "Target") as [-> | ->]
    by by apply elem_of_default_cols.
  - eexists. split; [reflexivity|]. intros r. cbn [map]. by rewrite Hcells.
  - eexists. split; [reflexivity|]. intros r. cbn [map]. by rewrite Hcells.
Qed.

Lemma select_column_unknown name :
  name ∉ default_cols -> select_column name = Err (KeyError_column name).
Proof.
  intros Hnot. rewrite elem_of_default_cols in Hnot. unfold select_column.
  rewrite !decide_False; [done|tauto..].
Qed.

Lemma select_columns_unknown cols :
  Exists (fun name => name ∉ default_cols) cols ->
  exists name, (name ∈ cols) /\ (name ∉ default_cols)
    /\ map_each select_column cols = Err (KeyError_column name).
Proof.
  induction cols as [|name cols IH]; intros Hex; [by apply Exists_nil in Hex|].
  cbn [map_each]. destruct (decide (name ∈ default_cols)) as [Hin|Hnot].
  - apply Exists_cons in Hex as [Hx|Hex]; [done|].
    destruct (IH Hex) as (n & Hn & Hbad & ->). exists n.
    split; [by right|]. split; [done|].
    assert (name = "Position" \/ name = "Target") as [-> | ->]
      by (by apply elem_of_default_cols); reflexivity.
  - exists name. split; [by left|]. split; [done|].
    by rewrite select_column_unknown.
Qed.

Lemma convert_chunk_cols cols i chunk outfile :
  Forall (fun name => name ∈ default_cols) cols ->
  chunk <> [] ->
  Forall (fun row => is_Ok (possible_moves_row row) = true) chunk ->
  convert_chunk cols i chunk outfile
  = Ok (if (i =? 0)%nat
        then Header cols :: map (project cols) (expand_rows chunk)
        else outfile ++ map (project cols) (expand_rows chunk)).
Proof.
  intros Hcols Hne Hall. unfold convert_chunk.
  rewrite (map_each_expansion _ Hall). cbn [mbind result_bind].
  unfold pd_concat. destruct chunk as [|r chunk]; [done|]. cbn [map].
  cbn [mbind result_bind]. unfold to_csv.
  destruct (select_columns_valid cols Hcols) as (getters & -> & Hcells).
  cbn [mbind result_bind]. unfold project.
  assert (forall rows, map (fun r => Data (map (fun g => g r) getters)) rows
                       = map (fun r => Data (map (cell_of r) cols)) rows) as Hmap.
  { intros rows. apply map_ext. intros r0. by rewrite Hcells. }
  rewrite Hmap. by destruct (i =? 0)%nat.
Qed.

Lemma convert_chunks_cols cols chunks : forall i outfile,
  Forall (fun name => name ∈ default_cols) cols ->
  Forall (fun chunk => chunk <> []
            /\ Forall (fun row => is_Ok (possible_moves_row row) = true) chunk) chunks ->
  convert_chunks cols (S i) chunks outfile
  = (outfile ++ map (project cols) (expand_rows (concat chunks)), Ok tt).
Proof.
  induction chunks as [|chunk chunks IH]; intros i outfile Hcols Hall.
  - cbn. by rewrite app_nil_r.
  - apply Forall_cons in Hall as [[Hne Hok] Hall].
    cbn [convert_chunks]. rewrite (convert_chunk_cols _ _ _ _ Hcols Hne Hok).
    cbn [Nat.eqb]. rewrite (IH _ _ Hcols Hall). cbn [concat].
    by rewrite expand_rows_app, map_app, (assoc_L (++)).
Qed.

(** X10. With columns given by the caller ([cols]) and a file of at
    least one record on none of whose rows, as [pd.read_csv] yields them,
    [possible_moves] raises, [make_converted_file] writes the header [cols]
    and each row projected on [cols], in their order and with repetitions,
    when every name is [Position] or [Target]; with any other name in
    [cols] it raises [KeyError] on such a name and writes nothing. *)
Theorem make_converted_file_columns infile outfile cols :
  infile <> [] ->
  Forall (fun row => is_Ok (possible_moves_row row) = true) (read_rows infile) ->
  (Forall (fun name => name ∈ default_cols) cols ->
     make_converted_file infile outfile (Some cols)
     = (Header cols :: map (project cols) (expand_all infile), Ok tt))
  /\ (Exists (fun name => name ∉ default_cols) cols ->
      exists name, (name ∈ cols) /\ (name ∉ default_cols)
        /\ make_converted_file infile outfile (Some cols)
           = (outfile, Err (KeyError_column name))).
Proof.
  intros Hne Hall.
  destruct (expand_rows_of _ _ (read_rows_row_of infile) Hall) as [_ Hsame].
  pose proof (read_csv_expandable infile Hne Hall) as Hok.
  unfold make_converted_file. rewrite <- Hsame. unfold read_rows.
  destruct (read_csv_cons infile 100 Hne) as (chunk & chunks & Hchunks).
  rewrite Hchunks in *.
  apply Forall_cons in Hok as [[Hne1 Hok1] Hok]. split.
  - intros Hcols. cbn [convert_chunks].
    rewrite (convert_chunk_cols _ _ _ _ Hcols Hne1 Hok1). cbn [Nat.eqb].
    rewrite (convert_chunks_cols _ _ _ _ Hcols Hok).
    cbn [concat]. by rewrite expand_rows_app, map_app.
  - intros Hbad. destruct (select_columns_unknown cols Hbad) as (name & Hin & Hnot & Hsel).
    exists name. split; [done|]. split; [done|].
    cbn [convert_chunks]. unfold convert_chunk.
    rewrite (map_each_expansion _ Hok1). cbn [mbind result_bind].
    unfold pd_concat. destruct chunk as [|r chunk]; [done|]. cbn [map].
    cbn [mbind result_bind]. unfold to_csv. by rewrite Hsel.
Qed.
End MoreConverterFacts.

(** ** The strategies *)

(** The order of strings. *)
Lemma ascii_compare_refl c : Ascii.compare c c = Eq.
Proof. unfold Ascii.compare. apply N.compare_refl. Qed.

Lemma string_leb_refl s : String.leb s s = true.
Proof.
  unfold String.leb. assert (String.compare s s = Eq) as ->; [|done].
  induction s as [|c s IH]; [done|]. cbn. by rewrite ascii_compare_refl.
Qed.

Lemma string_leb_trans s1 : forall s2 s3,
  String.leb s1 s2 = true -> String.leb s2 s3 = true -> String.leb s1 s3 = true.
Proof.
  unfold String.leb.
  induction s1 as [|c1 s1 IH]; intros [|c2 s2] [|c3 s3]; cbn; try done.
  unfold Ascii.compare.
  destruct (N.compare_spec (N_of_ascii c1) (N_of_ascii c2)) as [H12|H12|H12];
    destruct (N.compare_spec (N_of_ascii c2) (N_of_ascii c3)) as [H23|H23|H23];
    destruct (N.compare_spec (N_of_ascii c1) (N_of_ascii c3)) as [H13|H13|H13];
    try done; try lia.
  apply IH.
Qed.

Lemma insert_by_elem {A} (key : A -> string) x y l :
  y ∈ insert_by key x l <-> y = x \/ y ∈ l.
Proof.
  induction l as [|z l IH]; cbn [insert_by].
  - rewrite elem_of_cons. tauto.
  - destruct (String.leb (key x) (key z)).
    + rewrite elem_of_cons. tauto.
    + rewrite !elem_of_cons, IH. tauto.
Qed.

Lemma list_sort_elem {A} (key : A -> string) y l :
  y ∈ list_sort key l <-> y ∈ l.
Proof.
  induction l as [|x l IH]; [done|].
  cbn [list_sort foldr]. fold (list_sort key l).
  rewrite insert_by_elem, elem_of_cons, IH. tauto.
Qed.

Lemma insert_by_head {A} (key : A -> string) x l m rest :
  insert_by key x l = m :: rest ->
  (forall y rest', l = y :: rest' -> Forall (fun z => String.leb (key y) (key z) = true) l) ->
  Forall (fun z => String.leb (key m) (key z) = true) (x :: l).
Proof.
  destruct l as [|y l]; cbn [insert_by].
  - intros [= <- <-] _. constructor; [apply string_leb_refl|constructor].
  - intros H Hmin. specialize (Hmin y l eq_refl).
    destruct (String.leb (key x) (key y)) eqn:Hxy.
    + injection H as <- <-. constructor; [apply string_leb_refl|].
      eapply Forall_impl; [apply Hmin|]. intros z Hz. cbn in Hz.
      by eapply string_leb_trans.
    + injection H as <- <-. constructor; [|done].
      destruct (String.leb_total (key x) (key y)); congruence.
Qed.

Lemma list_sort_head {A} (key : A -> string) l : forall m rest,
  list_sort key l = m :: rest ->
  Forall (fun z => String.leb (key m) (key z) = true) l.
Proof.
  induction l as [|x l IH]; intros m rest H; [constructor|].
  cbn [list_sort foldr] in H. fold (list_sort key l) in H.
  assert (Forall (fun z => String.leb (key m) (key z) = true) (x :: list_sort key l)) as Hs.
  { eapply insert_by_head; [apply H|]. intros y rest' Hy.
    specialize (IH y rest' Hy). apply Forall_forall. intros z Hz.
    rewrite Forall_forall in IH. apply IH. by apply (list_sort_elem key). }
  apply Forall_cons in Hs as [Hx Hs]. constructor; [done|].
  apply Forall_forall. intros z Hz. rewrite Forall_forall in Hs.
  apply Hs. by apply (list_sort_elem key).
Qed.

Lemma list_sort_first {A} (key : A -> string) (l : list A) :
  (l = [] /\ list_sort key l = [])
  \/ (exists m rest, list_sort key l = m :: rest /\ m ∈ l
        /\ forall z, z ∈ l -> String.leb (key m) (key z) = true).
Proof.
  destruct (list_sort key l) as [|m rest] eqn:Hs.
  - left. split; [|done]. destruct l as [|x l]; [done|].
    assert (x ∈ list_sort key (x :: l)) as Hx by (apply (list_sort_elem key); left).
    rewrite Hs in Hx. by apply elem_of_nil in Hx.
  - right. exists m, rest. split; [done|]. split.
    + apply (list_sort_elem key). rewrite Hs. left.
    + apply Forall_forall. by eapply list_sort_head.
Qed.

Section StrategyFacts.
Context {E : RulesEngine} {P : PushEngine E}.
Variable san : board -> move -> string.

(** X11. [FirstMove.search] raises [IndexError] on a board with no legal
    move; otherwise it returns, with no ponder move, a legal move whose UCI
    string is least among those of the legal moves. *)
Theorem FirstMove_search_least b :
  (legal_moves b = [] /\ FirstMove_search b = Err IndexError)
  \/ (exists m, FirstMove_search b = Ok (MkPlayResult m None)
        /\ m ∈ legal_moves b
        /\ forall m', m' ∈ legal_moves b -> String.leb (uci m) (uci m') = true).
Proof.
  unfold FirstMove_search, list_getitem.
  destruct (list_sort_first uci (legal_moves b)) as [[Hnil ->]|(m & rest & -> & Hin & Hmin)].
  - by left.
  - right. by exists m.
Qed.

(** X12. [Alphabetical.search] raises [IndexError] on a board with no
    legal move; otherwise it returns, with no ponder move, a legal move
    whose SAN string is least among those of the legal moves. *)
Theorem Alphabetical_search_least b :
  (legal_moves b = [] /\ Alphabetical_search san b = Err IndexError)
  \/ (exists m, Alphabetical_search san b = Ok (MkPlayResult m None)
        /\ m ∈ legal_moves b
        /\ forall m', m' ∈ legal_moves b -> String.leb (san b m) (san b m') = true).
Proof.
  unfold Alphabetical_search, list_getitem.
  destruct (list_sort_first (san b) (legal_moves b))
    as [[Hnil ->]|(m & rest & -> & Hin & Hmin)].
  - by left.
  - right. by exists m.
Qed.
End StrategyFacts.

Example FirstMove_opening :
  (b ← Board (RulesEngine := PyChess.engine) STARTING_FEN;
   r ← FirstMove_search b; Ok (uci (played r)))
  = Ok "a2a3".
Proof. vm_compute. reflexivity. Qed.

(** ** The players *)

(** *** [reshape(8, 8, 13)] *)

Lemma rows_of_concat {A} width count : forall (a : list A),
  length a = width * count -> concat (rows_of width count a) = a.
Proof.
  induction count as [|count IH]; intros a Hlen.
  - destruct a; [done|]. cbn in Hlen. lia.
  - cbn [rows_of concat]. rewrite IH, take_drop; [done|].
    rewrite length_drop. lia.
Qed.

Lemma rows_of_lookup {A} width count : forall (a : list A) i,
  i < count -> rows_of width count a !! i = Some (take width (drop (width * i) a)).
Proof.
  induction count as [|count IH]; intros a i Hi; [lia|].
  destruct i as [|i]; cbn [rows_of lookup list_lookup].
  - by rewrite Nat.mul_0_r, drop_0.
  - change (rows_of width count (drop width a) !! i
            = Some (take width (drop (width * S i) a))).
    rewrite IH by lia. rewrite drop_drop. do 3 f_equal. lia.
Qed.

Lemma rows_of_length {A} width count (a : list A) :
  length (rows_of width count a) = count.
Proof. revert a. induction count as [|count IH]; intros a; cbn; [done|by rewrite IH]. Qed.

Lemma fen_to_array_length fen a : fen_to_array fen = Ok a -> length a = 832.
Proof.
  intros (bs & _ & Hlen & _ & ->)%fen_to_array_Ok_inv.
  rewrite concat_blocks_length.
  - by rewrite length_map, length_chars, Hlen.
  - apply Forall_map, Forall_forall. intros c _. apply one_hot_length.
Qed.

(** X13. [reshape(8, 8, 13)] of the vector [fen_to_array] returns loses
    nothing (flattened again it is the vector), and its entry at row [r] and
    column [f] is the one-hot block of character [8 * r + f] of the board
    string. *)
Theorem reshape_squares fen a :
  fen_to_array fen = Ok a ->
  concat (concat (reshape_8_8_13 a)) = a
  /\ exists bs, board_string_of fen = Some bs
       /\ forall r f, r < 8 -> f < 8 ->
            exists c, String.get (8 * r + f) bs = Some c
              /\ (row ← reshape_8_8_13 a !! r; row !! f) = Some (one_hot (class_of c)).
Proof.
  intros Ha. pose proof (fen_to_array_length _ _ Ha) as Hlen.
  destruct (fen_to_array_Ok_inv _ _ Ha) as (bs & Hbs & Hbs64 & Hknown & Hv).
  unfold reshape_8_8_13. split.
  - rewrite rows_of_concat, rows_of_concat; [done|lia|].
    rewrite rows_of_length. done.
  - exists bs. split; [done|]. intros r f Hr Hf.
    destruct (lookup_lt_is_Some_2 (chars bs) (8 * r + f)) as [c Hc];
      [rewrite length_chars; lia|].
    exists c. rewrite get_chars. split; [done|].
    rewrite rows_of_lookup by done. cbn [mbind option_bind].
    rewrite lookup_take, decide_True by done. rewrite lookup_drop.
    rewrite rows_of_lookup by lia.
    f_equal. change (block a (8 * r + f) = one_hot (class_of c)).
    rewrite Hv. apply concat_blocks_block.
    + apply Forall_map, Forall_forall. intros c' _. apply one_hot_length.
    + by rewrite list_lookup_fmap, Hc.
Qed.

Lemma reshape_squares_witness :
  exists a, fen_to_array STARTING_FEN = Ok a
    /\ concat (concat (reshape_8_8_13 a)) = a
    /\ exists bs, board_string_of STARTING_FEN = Some bs
         /\ forall r f, r < 8 -> f < 8 ->
              exists c, String.get (8 * r + f) bs = Some c
                /\ (row ← reshape_8_8_13 a !! r; row !! f) = Some (one_hot (class_of c)).
Proof.
  destruct (fen_to_array STARTING_FEN) as [a|] eqn:Ha; [|vm_compute in Ha; discriminate].
  exists a. split; [done|]. by apply (reshape_squares STARTING_FEN).
Defined.

(** *** The move the network picks *)

Section PlayFacts.
Context {E : RulesEngine} {P : PushEngine E}.
Variable push_san : board -> string -> result board.

Lemma scan_moves_ok b ms : forall fens,
  Forall (fun m => pop (push b m) = Ok b) ms ->
  for_each scan_move ms (b, fens) = Ok (b, fens ++ map (fun m => fen (push b m)) ms).
Proof.
  induction ms as [|m ms IH]; intros fens Hall.
  - cbn. by rewrite app_nil_r.
  - apply Forall_cons in Hall as [Hm Hall]. cbn [for_each scan_move].
    rewrite Hm. cbn [mbind result_bind]. rewrite (IH _ Hall).
    cbn [map]. by rewrite <- (assoc_L (++)).
Qed.

Lemma encode_all_ok b ms :
  Forall (fun m => is_Ok (fen_to_array (fen (push b m))) = true) ms ->
  exists batch,
    map_each (fun f => a ← fen_to_array f; Ok (reshape_8_8_13 a))
             (map (fun m => fen (push b m)) ms) = Ok batch
    /\ Forall2 (input_for b) ms batch.
Proof.
  induction 1 as [|m ms Hm _ (batch & Hbatch & Hall)]; [by exists []|].
  destruct (fen_to_array (fen (push b m))) as [a|] eqn:Ha; [|done].
  exists (reshape_8_8_13 a :: batch). cbn [map map_each]. rewrite Ha.
  cbn [mbind result_bind]. rewrite Hbatch. split; [done|].
  constructor; [by exists a|done].
Qed.

Lemma scannable_inv b :
  scannable b = true ->
  Forall (fun m => pop (push b m) = Ok b) (legal_moves b)
  /\ Forall (fun m => is_Ok (fen_to_array (fen (push b m))) = true) (legal_moves b).
Proof.
  unfold scannable. rewrite forallb_forall. intros H.
  split; apply Forall_forall; intros m Hm%list_elem_of_In; specialize (H m Hm);
    apply andb_prop in H as [H1 H2]; [|done].
  destruct (pop (push b m)) as [b'|]; [|done].
  by apply bool_decide_eq_true_1 in H2 as ->.
Qed.

Lemma model_input_ok b :
  scannable b = true ->
  exists batch, model_input b = Ok (b, batch)
    /\ Forall2 (input_for b) (legal_moves b) batch.
Proof.
  intros [Hpop Henc]%scannable_inv.
  destruct (encode_all_ok b _ Henc) as (batch & Hbatch & Hall).
  exists batch. split; [|done]. unfold model_input.
  rewrite (scan_moves_ok b _ [] Hpop). cbn [mbind result_bind app snd fst].
  by rewrite Hbatch.
Qed.

(** X14. On a board whose legal moves the engine takes back and encodes,
    [PuzzledBot.search] gives the network one array per legal move, in the
    order of the moves, each the encoding of the position after that move;
    what it returns is the legal move at the index the network picks, with
    no ponder move, and it leaves the caller's board with that move played
    (and nothing else: popping it gives the board back). *)
Theorem PuzzledBot_search_legal (model : network) b :
  scannable b = true ->
  exists batch,
    Forall2 (input_for b) (legal_moves b) batch
    /\ PuzzledBot_search model b
       = (i ← model batch;
          best_move ← list_getitem (legal_moves b) i;
          Ok (MkPlayResult best_move None, push b best_move))
    /\ forall r b', PuzzledBot_search model b = Ok (r, b') ->
         played r ∈ legal_moves b /\ ponder r = None
         /\ b' = push b (played r) /\ pop b' = Ok b.
Proof.
  intros Hscan. destruct (model_input_ok b Hscan) as (batch & Hin & Hall).
  exists batch. split; [done|].
  assert (PuzzledBot_search model b
          = (i ← model batch;
             best_move ← list_getitem (legal_moves b) i;
             Ok (MkPlayResult best_move None, push b best_move))) as Heq.
  { unfold PuzzledBot_search. by rewrite Hin. }
  split; [done|]. rewrite Heq. intros r b' H.
  destruct (model batch) as [i|]; [|done]. cbn [mbind result_bind] in H.
  unfold list_getitem in H.
  destruct (legal_moves b !! i) as [m|] eqn:Hm; [|done].
  cbn [mbind result_bind] in H. injection H as <- <-. cbn [played ponder].
  apply list_elem_of_lookup_2 in Hm. repeat split; [done|].
  apply scannable_inv in Hscan as [Hpop _]. rewrite Forall_forall in Hpop. by apply Hpop.
Qed.

(** X15. On a board whose legal moves the engine takes back and encodes,
    [Player.play_move] gives the network one array per legal move, in their
    order, returns the legal move at the index the network picks, and leaves
    the player's board with exactly that move played and its network
    unchanged. *)
Theorem play_move_legal (self : Player.t) :
  scannable (Player.board self) = true ->
  exists batch,
    Forall2 (input_for (Player.board self)) (legal_moves (Player.board self)) batch
    /\ Player.play_move self
       = (i ← Player.model self batch;
          best_move ← list_getitem (legal_moves (Player.board self)) i;
          Ok (best_move,
              Player.Build (Player.model self) (push (Player.board self) best_move)))
    /\ forall m self', Player.play_move self = Ok (m, self') ->
         m ∈ legal_moves (Player.board self)
         /\ Player.board self' = push (Player.board self) m
         /\ Player.model self' = Player.model self.
Proof.
  intros Hscan. destruct (model_input_ok _ Hscan) as (batch & Hin & Hall).
  exists batch. split; [done|].
  assert (Player.play_move self
          = (i ← Player.model self batch;
             best_move ← list_getitem (legal_moves (Player.board self)) i;
             Ok (best_move,
                 Player.Build (Player.model self) (push (Player.board self) best_move))))
    as Heq.
  { unfold Player.play_move. by rewrite Hin. }
  split; [done|]. rewrite Heq. intros m self' H.
  destruct (Player.model self batch) as [i|]; [|done]. cbn [mbind result_bind] in H.
  unfold list_getitem in H.
  destruct (legal_moves (Player.board self) !! i) as [m'|] eqn:Hm; [|done].
  cbn [mbind result_bind] in H. injection H as <- <-.
  apply list_elem_of_lookup_2 in Hm. done.
Qed.

(** X16. The batch the players give the network for a board is the
    [Position] column of the rows [possible_moves] returns for the same
    position, reshaped, in the same order: the network is asked about what
    it was trained on. *)
Theorem model_input_training_rows start_fen target b t :
  Board start_fen = Ok b ->
  from_uci target = Ok t ->
  expandable b = true ->
  pushes_agree b = true ->
  exists rows,
    possible_moves (Cleaned.Build start_fen target) = Ok rows
    /\ model_input b = Ok (b, map (fun r => reshape_8_8_13 (Position r)) rows).
Proof.
  intros Hb Ht Hexp Hagree.
  assert (Forall (fun m => replay_ok b m = true) (legal_moves b)) as Hreplay.
  { unfold expandable in Hexp. rewrite forallb_forall in Hexp.
    apply Forall_forall. intros m Hm. apply Hexp. by apply list_elem_of_In. }
  assert (Forall (fun m => push_uci b (uci m) = Ok (push b m)) (legal_moves b)) as Hpush.
  { unfold pushes_agree in Hagree. rewrite forallb_forall in Hagree.
    apply Forall_forall. intros m Hm%list_elem_of_In. specialize (Hagree m Hm).
    destruct (push_uci b (uci m)) as [b'|]; [|done].
    by apply bool_decide_eq_true_1 in Hagree as ->. }
  destruct (try_moves_ok target t b (legal_moves b) Ht Hreplay []) as (rows & Hloop & Hrows).
  exists rows. split.
  { unfold possible_moves. cbn [Cleaned.FEN Cleaned.target_move].
    rewrite Hb. cbn [mbind result_bind]. by rewrite Hloop. }
  unfold model_input. rewrite (scan_moves_ok b _ []).
  2:{ apply Forall_forall. intros m Hm.
      rewrite Forall_forall in Hreplay, Hpush.
      destruct (replay_ok_inv _ _ (Hreplay m Hm)) as (b' & v & Hp & _ & Hpop).
      rewrite (Hpush m Hm) in Hp. by injection Hp as <-. }
  cbn [mbind result_bind app snd fst].
  assert (map_each (fun f => a ← fen_to_array f; Ok (reshape_8_8_13 a))
                   (map (fun m => fen (push b m)) (legal_moves b))
          = Ok (map (fun r => reshape_8_8_13 (Position r)) rows)) as ->; [|done].
  clear Hloop Hreplay. induction Hrows as [|m r ms rows (b' & Hp & Hv & _) _ IH]; [done|].
  apply Forall_cons in Hpush as [Hm Hpush]. rewrite Hm in Hp. injection Hp as <-.
  cbn [map map_each]. rewrite Hv. cbn [mbind result_bind]. by rewrite (IH Hpush).
Qed.
End PlayFacts.

(** ** The game *)

Section GameFacts.
Context {E : RulesEngine} {P : PushEngine E}.
Variable push_san : board -> string -> result board.
Hypothesis pop_push : forall b m, pop (push b m) = Ok b.

Lemma model_input_board b b' batch :
  model_input b = Ok (b', batch) -> b' = b.
Proof using pop_push.
  unfold model_input. rewrite (scan_moves_ok b _ []).
  - cbn [mbind result_bind fst snd]. destruct (map_each _ _); [|done].
    cbn [mbind result_bind]. congruence.
  - apply Forall_forall. intros m _. apply pop_push.
Qed.

Lemma play_move_inv (self self' : Player.t) m :
  Player.play_move self = Ok (m, self') ->
  m ∈ legal_moves (Player.board self)
  /\ Player.board self' = push (Player.board self) m
  /\ Player.model self' = Player.model self.
Proof using pop_push.
  unfold Player.play_move.
  destruct (model_input (Player.board self)) as [[b1 batch]|] eqn:Hin; [|done].
  apply model_input_board in Hin as ->. cbn [mbind result_bind fst snd].
  destruct (Player.model self batch) as [i|]; [|done]. cbn [mbind result_bind].
  unfold list_getitem.
  destruct (legal_moves (Player.board self) !! i) as [m'|] eqn:Hm; [|done].
  cbn [mbind result_bind]. intros [= <- <-].
  apply list_elem_of_lookup_2 in Hm. done.
Qed.

Lemma parity ply_num :
  (ply_num mod 2 = 0 /\ (ply_num + 1) mod 2 = 1 /\ (ply_num + 1 + 1) mod 2 = 0)
  \/ (ply_num mod 2 = 1 /\ (ply_num + 1) mod 2 = 0 /\ (ply_num + 1 + 1) mod 2 = 1).
Proof.
  pose proof (Nat.mod_upper_bound ply_num 2 ltac:(lia)) as Hlt.
  pose proof (Nat.div_mod_eq ply_num 2) as Heq.
  destruct (ply_num mod 2) as [|[|r]] eqn:Hr; [left|right|lia].
  - split; [done|]. split.
    + replace (ply_num + 1) with (1 + ply_num / 2 * 2) by lia.
      by rewrite Nat.Div0.mod_add.
    + replace (ply_num + 1 + 1) with (0 + (ply_num / 2 + 1) * 2) by lia.
      by rewrite Nat.Div0.mod_add.
  - split; [done|]. split.
    + replace (ply_num + 1) with (0 + (ply_num / 2 + 1) * 2) by lia.
      by rewrite Nat.Div0.mod_add.
    + replace (ply_num + 1 + 1) with (1 + (ply_num / 2 + 1) * 2) by lia.
      by rewrite Nat.Div0.mod_add.
Qed.

Lemma turn_in_step (g g' : Single_Game.t) ply_num ply_num' :
  in_step g ply_num ->
  Single_Game.turn push_san g ply_num = Ok (g', ply_num') ->
  ply_num' = ply_num + 1
  /\ in_step g' ply_num'
  /\ exists m,
       m ∈ legal_moves (Player.board
                          (Single_Game.get (Single_Game.the_players g)
                                           (Single_Game.active_player g)))
       /\ Single_Game.game_board g' = push (Single_Game.game_board g) m
       /\ forall s,
            Player.board (Single_Game.get (Single_Game.the_players g') s)
            = push (Player.board (Single_Game.get (Single_Game.the_players g) s)) m
            /\ Player.model (Single_Game.get (Single_Game.the_players g') s)
               = Player.model (Single_Game.get (Single_Game.the_players g) s).
Proof using pop_push.
  intros (w & b & Hps & Hboards & Hact & Hpas) Hturn.
  unfold Single_Game.turn in Hturn. rewrite Hps, Hact, Hpas in Hturn.
  rewrite Hps, Hact.
  destruct (parity ply_num) as [(H0 & H1 & H2)|(H0 & H1 & H2)];
    rewrite H0, H1 in Hturn; rewrite H0;
    cbn [Single_Game.switcher Single_Game.get Single_Game.set] in Hturn |- *.
  - destruct (Player.play_move w) as [[m w']|] eqn:Hplay; [|done].
    cbn [mbind result_bind Player.op_move] in Hturn. injection Hturn as <- <-.
    apply play_move_inv in Hplay as (Hm & Hw' & Hmodel).
    split; [done|]. split.
    + eexists _, _. cbn [Single_Game.the_players Single_Game.active_player
                          Single_Game.passive_player Player.board].
      split; [done|]. rewrite H1, H2, Hw', Hboards. done.
    + exists m. cbn [Single_Game.game_board Single_Game.the_players].
      split; [done|]. split; [done|]. intros [|]; cbn [Single_Game.get Player.board Player.model];
        done.
  - destruct (Player.play_move b) as [[m b']|] eqn:Hplay; [|done].
    cbn [mbind result_bind Player.op_move] in Hturn. injection Hturn as <- <-.
    apply play_move_inv in Hplay as (Hm & Hb' & Hmodel).
    split; [done|]. split.
    + eexists _, _. cbn [Single_Game.the_players Single_Game.active_player
                          Single_Game.passive_player Player.board].
      split; [done|]. rewrite H1, H2, Hb', Hboards. done.
    + exists m. cbn [Single_Game.game_board Single_Game.the_players].
      split; [done|]. split; [done|]. intros [|]; cbn [Single_Game.get Player.board Player.model];
        done.
Qed.

Lemma turns_in_step n : forall (g g' : Single_Game.t) ply_num ply_num',
  in_step g ply_num ->
  Single_Game.turns push_san n g ply_num = Ok (g', ply_num') ->
  ply_num' = ply_num + n
  /\ in_step g' ply_num'
  /\ exists moves,
       length moves = n
       /\ Single_Game.game_board g' = foldl push (Single_Game.game_board g) moves
       /\ forall s,
            Player.board (Single_Game.get (Single_Game.the_players g') s)
            = foldl push (Player.board (Single_Game.get (Single_Game.the_players g) s))
                    moves.
Proof using pop_push.
  induction n as [|n IH]; intros g g' ply_num ply_num' Hstep Hturns.
  - cbn in Hturns. injection Hturns as <- <-.
    split; [lia|]. split; [done|]. by exists [].
  - cbn [Single_Game.turns] in Hturns.
    destruct (Single_Game.turn push_san g ply_num) as [[g1 ply1]|] eqn:Hturn; [|done].
    cbn [mbind result_bind fst snd] in Hturns.
    destruct (turn_in_step _ _ _ _ Hstep Hturn) as (-> & Hstep1 & m & _ & Hgame & Hboards).
    destruct (IH _ _ _ _ Hstep1 Hturns) as (-> & Hstep' & moves & Hlen & Hgame' & Hboards').
    split; [lia|]. split; [done|]. exists (m :: moves). cbn [length foldl].
    split; [by rewrite Hlen|]. split; [by rewrite Hgame', Hgame|].
    intros s. rewrite Hboards'. by destruct (Hboards s) as [-> _].
Qed.

Lemma init_in_step w b names g :
  Single_Game.init (Single_Game.Distinct w b) names = Ok g ->
  in_step g 0
  /\ Board STARTING_FEN = Ok (Single_Game.game_board g)
  /\ forall s,
       Board (fen (Single_Game.game_board g))
       = Ok (Player.board (Single_Game.get (Single_Game.the_players g) s)).
Proof.
  unfold Single_Game.init.
  destruct (Board STARTING_FEN) as [gb|] eqn:Hgb; [|done]. cbn [mbind result_bind].
  cbn [Single_Game.get Single_Game.set]. unfold Player.set_position.
  destruct (Board (fen gb)) as [pb|] eqn:Hpb; [|done]. cbn [mbind result_bind].
  intros H. injection H as <-. cbn [Single_Game.game_board Single_Game.the_players].
  split; [|split; [done|]].
  - eexists _, _. cbn. done.
  - rewrite Hpb. by intros [|].
Qed.

(** X17. In a game between two player objects, after [n] turns of the
    loop of [Single_Game.play] the ply counter is [n], the sides to move and
    to wait have the parity of [n], and the game board and the boards of
    both players are the boards they had after [__init__] (the initial
    position) with one and the same sequence of [n] moves played. *)
Theorem play_in_step w b names n (g g' : Single_Game.t) ply_num' :
  Single_Game.init (Single_Game.Distinct w b) names = Ok g ->
  Single_Game.turns push_san n g 0 = Ok (g', ply_num') ->
  ply_num' = n
  /\ in_step g' n
  /\ exists moves,
       length moves = n
       /\ Single_Game.game_board g' = foldl push (Single_Game.game_board g) moves
       /\ forall s,
            Board (fen (Single_Game.game_board g))
            = Ok (Player.board (Single_Game.get (Single_Game.the_players g) s))
            /\ Player.board (Single_Game.get (Single_Game.the_players g') s)
               = foldl push
                   (Player.board (Single_Game.get (Single_Game.the_players g) s)) moves.
Proof using pop_push.
  intros (Hstep & _ & Hboards)%init_in_step Hturns.
  destruct (turns_in_step _ _ _ _ _ Hstep Hturns) as (-> & Hstep' & moves & Hlen & Hg & Hb).
  split; [done|]. split; [done|]. exists moves. by repeat split.
Qed.
End GameFacts.

(** ** The players and the game on python-chess *)

Lemma possible_moves_illegal_target_witness :
  exists b t,
    Board (RulesEngine := PyChess.engine) advanced_fen = Ok b
    /\ from_uci "e2e4" = Ok t
    /\ exists rows,
         possible_moves (Cleaned.Build advanced_fen "e2e4") = Ok rows
         /\ length rows = length (legal_moves b)
         /\ Forall (fun r => Target r = 0%Z) rows
         /\ positives rows = [].
Proof.
  eexists _, _. split; [vm_compute; reflexivity|]. split; [vm_compute; reflexivity|].
  eapply (possible_moves_illegal_target (E := PyChess.engine)).
  - vm_compute. reflexivity.
  - vm_compute. reflexivity.
  - apply (bool_decide_unpack _). vm_compute. exact I.
  - vm_compute. reflexivity.
Defined.

Lemma puzzle_cleaning_too_few_moves_witness :
  exists b,
    Board (RulesEngine := PyChess.engine) STARTING_FEN = Ok b
    /\ (str_split "e2e4" = [] ->
          single_move (Puzzle.Build STARTING_FEN "e2e4") = Err IndexError
          /\ puzzle_cleaning [Puzzle.Build STARTING_FEN "e2e4"] = Err IndexError)
    /\ (forall first b',
          str_split "e2e4" = [first] ->
          push_uci b first = Ok b' ->
          single_move (Puzzle.Build STARTING_FEN "e2e4") = Ok (fen b')
          /\ puzzle_cleaning [Puzzle.Build STARTING_FEN "e2e4"] = Err IndexError).
Proof.
  eexists. split; [vm_compute; reflexivity|].
  apply (puzzle_cleaning_too_few_moves (E := PyChess.engine)
           (Puzzle.Build STARTING_FEN "e2e4")).
  vm_compute. reflexivity.
Defined.

Lemma puzzle_cleaning_row_wise_witness :
  puzzle_cleaning (E := PyChess.engine)
    [Puzzle.Build STARTING_FEN "e2e4 e7e5"; Puzzle.Build advanced_fen "e7e5 g1f3"]
  = Ok [Cleaned.Build advanced_fen "e7e5"; Cleaned.Build solved_fen "g1f3"].
Proof.
  apply (puzzle_cleaning_row_wise (E := PyChess.engine)); [done|].
  constructor; [vm_compute; reflexivity|].
  constructor; [vm_compute; reflexivity|]. constructor.
Defined.

Lemma make_converted_file_failing_batch_witness :
  exists e,
    make_converted_file (E := PyChess.engine) (R := Pandas.reader)
      (replicate 100 (Cleaned.Build mated_fen "e2e4") ++ [Cleaned.Build advanced_fen "0000"])
      [] None
    = (if decide (1 = 0) then []
       else Header ["Position"; "Target"]
            :: map data_line
                 (expand_all (replicate 100 (Cleaned.Build mated_fen "e2e4"))),
       Err e).
Proof.
  apply (make_converted_file_failing_batch (E := PyChess.engine) (R := Pandas.reader)).
  - vm_compute. reflexivity.
  - apply (bool_decide_unpack _). vm_compute. exact I.
  - apply (bool_decide_unpack _). vm_compute. exact I.
Defined.

Lemma make_converted_file_not_str_witness :
  exists b m ms b1,
    read_rows (R := Pandas.reader) [Cleaned.Build advanced_fen "0000"]
    = [Row.Build (Str advanced_fen) NotStr]
    /\ Board (RulesEngine := PyChess.engine) advanced_fen = Ok b
    /\ legal_moves b = m :: ms
    /\ push_uci b (uci m) = Ok b1
    /\ make_converted_file (E := PyChess.engine) (R := Pandas.reader)
         [Cleaned.Build advanced_fen "0000"] [] None
       = ([], Err TypeError).
Proof.
  eexists _, _, _, _.
  split; [vm_compute; reflexivity|]. split; [vm_compute; reflexivity|].
  split; [vm_compute; reflexivity|]. split; [vm_compute; reflexivity|].
  eapply (make_converted_file_not_str (E := PyChess.engine) (R := Pandas.reader)
            [Cleaned.Build advanced_fen "0000"] [] None
            (Row.Build (Str advanced_fen) NotStr) []).
  - vm_compute. reflexivity.
  - reflexivity.
  - reflexivity.
  - vm_compute. reflexivity.
  - vm_compute. reflexivity.
  - vm_compute. reflexivity.
Defined.

Lemma make_converted_file_columns_witness :
  let infile := [Cleaned.Build advanced_fen "e7e5"] in
  (make_converted_file (E := PyChess.engine) (R := Pandas.reader) infile [] (Some ["Target"])
   = (Header ["Target"] :: map (project ["Target"]) (expand_all infile), Ok tt))
  /\ (exists name, (name ∈ ["Target"; "FEN"]) /\ (name ∉ default_cols)
        /\ make_converted_file (E := PyChess.engine) (R := Pandas.reader) infile []
             (Some ["Target"; "FEN"])
           = ([], Err (KeyError_column name))).
Proof.
  intros infile. split.
  - apply (make_converted_file_columns (E := PyChess.engine) (R := Pandas.reader)
             infile [] ["Target"]).
    + done.
    + apply (bool_decide_unpack _). vm_compute. exact I.
    + apply (bool_decide_unpack _). vm_compute. exact I.
  - apply (make_converted_file_columns (E := PyChess.engine) (R := Pandas.reader)
             infile [] ["Target"; "FEN"]).
    + done.
    + apply (bool_decide_unpack _). vm_compute. exact I.
    + apply (bool_decide_unpack _). vm_compute. exact I.
Defined.

Lemma PuzzledBot_search_legal_witness :
  exists b,
    Board (RulesEngine := PyChess.engine) advanced_fen = Ok b
    /\ exists batch,
         Forall2 (input_for b) (legal_moves b) batch
         /\ PuzzledBot_search first_option b
            = (i ← first_option batch;
               best_move ← list_getitem (legal_moves b) i;
               Ok (MkPlayResult best_move None, push b best_move))
         /\ forall r b', PuzzledBot_search first_option b = Ok (r, b') ->
              played r ∈ legal_moves b /\ ponder r = None
              /\ b' = push b (played r) /\ pop b' = Ok b.
Proof.
  eexists. split; [vm_compute; reflexivity|].
  apply (PuzzledBot_search_legal (E := PyChess.engine) (P := pychess_push)).
  vm_compute. reflexivity.
Defined.

Lemma play_move_legal_witness :
  match example_black with
  | Ok self =>
      exists batch,
        Forall2 (input_for (Player.board self)) (legal_moves (Player.board self)) batch
        /\ Player.play_move self
           = (i ← Player.model self batch;
              best_move ← list_getitem (legal_moves (Player.board self)) i;
              Ok (best_move,
                  Player.Build (Player.model self) (push (Player.board self) best_move)))
        /\ forall m self', Player.play_move self = Ok (m, self') ->
             m ∈ legal_moves (Player.board self)
             /\ Player.board self' = push (Player.board self) m
             /\ Player.model self' = Player.model self
  | Err _ => False
  end.
Proof.
  assert (match example_black with
          | Ok self => scannable (Player.board self)
          | Err _ => false
          end = true) as Hscan by (vm_compute; reflexivity).
  destruct example_black as [self|]; [|discriminate Hscan].
  by apply (play_move_legal (E := PyChess.engine) (P := pychess_push)).
Defined.

Lemma model_input_training_rows_witness :
  exists b t,
    Board (RulesEngine := PyChess.engine) advanced_fen = Ok b
    /\ from_uci "e7e5" = Ok t
    /\ exists rows,
         possible_moves (Cleaned.Build advanced_fen "e7e5") = Ok rows
         /\ model_input b = Ok (b, map (fun r => reshape_8_8_13 (Position r)) rows).
Proof.
  eexists _, _. split; [vm_compute; reflexivity|]. split; [vm_compute; reflexivity|].
  eapply (model_input_training_rows (E := PyChess.engine) (P := pychess_push)).
  - vm_compute. reflexivity.
  - vm_compute. reflexivity.
  - vm_compute. reflexivity.
  - vm_compute. reflexivity.
Defined.

Lemma play_in_step_witness :
  match example_white, example_black with
  | Ok w, Ok b =>
      match Single_Game.init (Single_Game.Distinct w b) None with
      | Ok g =>
          match Single_Game.turns no_push_san 2 g 0 with
          | Ok (g', ply_num') =>
              ply_num' = 2
              /\ in_step g' 2
              /\ exists moves,
                   length moves = 2
                   /\ Single_Game.game_board g'
                      = foldl push (Single_Game.game_board g) moves
                   /\ forall s,
                        Board (fen (Single_Game.game_board g))
                        = Ok (Player.board
                                (Single_Game.get (Single_Game.the_players g) s))
                        /\ Player.board (Single_Game.get (Single_Game.the_players g') s)
                           = foldl push
                               (Player.board
                                  (Single_Game.get (Single_Game.the_players g) s))
                               moves
          | Err _ => False
          end
      | Err _ => False
      end
  | _, _ => False
  end.
Proof.
  assert (is_Ok (w ← example_white; b ← example_black;
                 g ← Single_Game.init (Single_Game.Distinct w b) None;
                 Single_Game.turns no_push_san 2 g 0) = true) as Hrun
    by (vm_compute; reflexivity).
  destruct example_white as [w|]; [|discriminate Hrun].
  destruct example_black as [b|]; [|discriminate Hrun].
  cbn [mbind result_bind] in Hrun.
  destruct (Single_Game.init (Single_Game.Distinct w b) None) as [g|] eqn:Hg;
    [|discriminate Hrun].
  cbn [mbind result_bind] in Hrun.
  destruct (Single_Game.turns no_push_san 2 g 0) as [[g' ply_num']|] eqn:Hturns;
    [|discriminate Hrun].
  exact (play_in_step (E := PyChess.engine) (P := pychess_push) no_push_san
           pychess_pop_push w b None 2 g g' ply_num' Hg Hturns).
Defined.
